(** * kubectl-ui: command execution and transcript core

    A shallow embedding of the Go back end of kubectl-ui (the runner, the
    input validation, the resource decoders, the command service and the
    transcript) followed by the properties its specification states.

    Go strings are byte strings and are modelled by [string]; Go's [int],
    [int64] and [time.Duration] are modelled by [Z] with the 64-bit
    wrap-around or saturation written where the code can reach it; [float64]
    is the kernel's binary64 [float]. *)

From Stdlib Require Import ZArith List String Ascii Bool Lia.
From Stdlib Require Import PrimFloat FloatOps SpecFloat Uint63.
From Stdlib Require Import DecimalString.
Import ListNotations.

Local Open Scope string_scope.
Local Open Scope list_scope.
Local Open Scope Z_scope.

(** String concatenation, Go's [+] on strings. *)
Infix "+++" := String.append (right associativity, at level 60).

Set Implicit Arguments.
Set Warnings "-register-all".

(** ** Go runtime helpers *)

Module Go.

(** A Go [error] value: [None] is [nil], [Some msg] carries [Error()]. *)
Definition error := option string.

(** A function result of the shape [(T, error)]. *)
Inductive result (A : Type) : Type :=
| Ok (a : A)
| Err (msg : string).
Arguments Ok {A} a.
Arguments Err {A} msg.

Definition min_int64 : Z := - 2 ^ 63.
Definition max_int64 : Z := 2 ^ 63 - 1.

(** Two's complement wrap-around of 64-bit [int] arithmetic. *)
Definition wrap64 (z : Z) : Z := (z + 2 ^ 63) mod 2 ^ 64 - 2 ^ 63.

(** Saturation, as [time.Time.Sub] does for its [Duration]. *)
Definition sat64 (z : Z) : Z := Z.max min_int64 (Z.min max_int64 z).

(** [len(s)]: the number of bytes. *)
Definition len (s : string) : Z := Z.of_nat (String.length s).

(** [strings.Join(elems, sep)]. *)
Fixpoint Join (elems : list string) (sep : string) : string :=
  match elems with
  | [] => ""
  | [x] => x
  | x :: rest => x +++ sep +++ Join rest sep
  end.

(** [fmt.Sprintf("%d", n)]: decimal digits, with a minus sign below zero. *)
Definition Sprintf_d (n : Z) : string := NilZero.string_of_int (Z.to_int n).

(** [strings.HasPrefix(s, p)]. *)
Definition HasPrefix (s p : string) : bool := String.prefix p s.

(** Byte value of a character. *)
Definition code (c : ascii) : Z := Z.of_N (N_of_ascii c).

Definition byte (z : Z) : ascii := ascii_of_N (Z.to_N (z mod 256)).

Definition between (lo hi : ascii) (c : ascii) : bool :=
  (code lo <=? code c) && (code c <=? code hi).

End Go.

Import Go.

(** ** View records and the result envelope (the package's model types) *)

Record Namespace := mkNamespace { Namespace_Name : string }.

Record Pod := mkPod {
  Pod_Name : string;
  Pod_Status : string;
  Pod_Ready : string;
  Pod_Restarts : Z;
  Pod_Age : string;
  Pod_Node : string;
  Pod_HasOwner : bool
}.

(** [ParsedData interface{}]: [PNil] is the absent payload. *)
Inductive Parsed : Type :=
| PNil
| PString (s : string)
| PContexts (names : list string)
| PNamespaces (l : list Namespace)
| PPods (l : list Pod).

Record CommandResult := mkResult {
  Command : string;
  Stdout : string;
  Stderr : string;
  ExitCode : Z;
  DurationMs : Z;
  ParsedData : Parsed
}.

(** ** Transcript buffer ([App.record], [GetTranscript], [ClearTranscript]) *)

Module Transcript.

Definition capacity : nat := 200.

(** [a.transcript = append(a.transcript, result)], then the slice
    [a.transcript[len-200:]] once the length exceeds 200. *)
Definition record (result : CommandResult) (transcript : list CommandResult)
  : list CommandResult :=
  let t := transcript ++ [result] in
  if (capacity <? List.length t)%nat then skipn (List.length t - capacity) t else t.

Definition ClearTranscript (transcript : list CommandResult) : list CommandResult :=
  firstn 0 transcript.

(** The buffer after recording the envelopes [rs] one after the other. *)
Definition record_all (rs : list CommandResult) (transcript : list CommandResult)
  : list CommandResult :=
  fold_left (fun t r => record r t) rs transcript.

End Transcript.

(** ** Regular expressions of the validators

    Both patterns of the source are anchored with [^] and [$] and Go's [$]
    (without the [m] flag) matches at the end of the text only, so
    [MatchString] holds exactly when the whole string is in the language of
    the pattern between the anchors.  Every class of the patterns is a set of
    ASCII ranges, which no byte of a multi-byte rune can match. *)

Module Regexp.

Inductive regexp : Type :=
| Void
| Eps
| Class (ranges : list (ascii * ascii))
| Cat (r1 r2 : regexp)
| Alt (r1 r2 : regexp)
| Star (r : regexp).

Definition Opt (r : regexp) : regexp := Alt r Eps.

Definition in_class (ranges : list (ascii * ascii)) (c : ascii) : bool :=
  existsb (fun p => between (fst p) (snd p) c) ranges.

Fixpoint nullable (r : regexp) : bool :=
  match r with
  | Void => false
  | Eps => true
  | Class _ => false
  | Cat r1 r2 => nullable r1 && nullable r2
  | Alt r1 r2 => nullable r1 || nullable r2
  | Star _ => true
  end.

Fixpoint deriv (c : ascii) (r : regexp) : regexp :=
  match r with
  | Void => Void
  | Eps => Void
  | Class ranges => if in_class ranges c then Eps else Void
  | Cat r1 r2 =>
      if nullable r1 then Alt (Cat (deriv c r1) r2) (deriv c r2)
      else Cat (deriv c r1) r2
  | Alt r1 r2 => Alt (deriv c r1) (deriv c r2)
  | Star r1 => Cat (deriv c r1) (Star r1)
  end.

Fixpoint MatchString (r : regexp) (s : string) : bool :=
  match s with
  | EmptyString => nullable r
  | String c s' => MatchString (deriv c r) s'
  end.

Definition lower_digit : list (ascii * ascii) := [("a", "z"); ("0", "9")]%char.

(** [^[a-z0-9]([-a-z0-9]*[a-z0-9])?$] *)
Definition dnsLabelRegex : regexp :=
  Cat (Class lower_digit)
      (Opt (Cat (Star (Class (("-", "-")%char :: lower_digit))) (Class lower_digit))).

Definition alnum : list (ascii * ascii) := [("A", "Z"); ("a", "z"); ("0", "9")]%char.

(** [^[A-Za-z0-9][A-Za-z0-9._:@/-]*$] *)
Definition safeContextRegex : regexp :=
  Cat (Class alnum)
      (Star (Class (alnum ++ [(".", "."); ("_", "_"); (":", ":"); ("@", "@");
                              ("/", "/"); ("-", "-")]%char))).

End Regexp.

(** ** Input validation and the context prefix (kubectl_runner.go) *)

Module Validate.
Import Regexp.

Definition validateNamespace (name : string) : error :=
  if len name =? 0 then Some "namespace is required"
  else if (253 <? len name) || negb (MatchString dnsLabelRegex name)
       then Some "invalid namespace name"
       else None.

Definition validatePodName (name : string) : error :=
  if len name =? 0 then Some "pod name is required"
  else if (253 <? len name) || negb (MatchString dnsLabelRegex name)
       then Some "invalid pod name"
       else None.

Definition validateContextName (name : string) : error :=
  if String.eqb name "" then None
  else if HasPrefix name "-" then Some "invalid context name"
  else if (253 <? len name) || negb (MatchString safeContextRegex name)
       then Some "invalid context name"
       else None.

Definition withContext (args : list string) (contextName : string)
  : result (list string) :=
  match validateContextName contextName with
  | Some msg => Err msg
  | None =>
      if String.eqb contextName "" then Ok args
      else Ok (["--context"; contextName] ++ args)
  end.

End Validate.

(** ** JSON text, as [encoding/json] reads it

    [json.Unmarshal] first runs its scanner over the whole input
    ([checkValid]) and only then decodes.  The scanner is a byte-by-byte
    state machine with a stack of open containers; [Json.step] is that
    machine, extended so that it also builds the value it has read.
    String values keep their raw text (between the quotes): the decoder
    unquotes it, [time.Time] reads it as it is. *)

Module Json.

Inductive json : Type :=
| JNull
| JBool (b : bool)
| JNumber (literal : string)
| JString (raw : string)
| JArray (elems : list json)
| JObject (members : list (string * json)).

(** [parseObjectKey] / [parseObjectValue] of the scanner's [parseState]. *)
Inductive ObjState := ObjKey | ObjValue.

(** An open container: the elements read so far, last first. *)
Inductive Frame : Type :=
| FArray (done : list json)
| FObject (done : list (string * json)) (key : option string) (ps : ObjState).

(** The scanner's step functions; token states carry the text read so
    far, last byte first. *)
Inductive Step : Type :=
| BeginValueOrEmpty
| BeginValue
| BeginStringOrEmpty
| BeginString
| EndValue
| InString (acc : list ascii)
| InStringEsc (acc : list ascii)
| InStringEscU (missing : nat) (acc : list ascii)
| Neg (acc : list ascii)
| St1 (acc : list ascii)
| St0 (acc : list ascii)
| Dot (acc : list ascii)
| Dot0 (acc : list ascii)
| StE (acc : list ascii)
| ESign (acc : list ascii)
| E0 (acc : list ascii)
| Lit (expect : list ascii) (v : json).

Record Scanner := mkScanner {
  sc_step : Step;
  sc_stack : list Frame;
  sc_top : option json
}.

Definition maxNestingDepth : Z := 10000.

(** The double quote. *)
Definition quote : ascii := "034"%char.

Definition isSpace (c : ascii) : bool :=
  (c =? " ")%char || (c =? "009")%char || (c =? "013")%char || (c =? "010")%char.

Definition isDigit (c : ascii) : bool := between "0" "9" c.

Definition isHex (c : ascii) : bool :=
  between "0" "9" c || between "a" "f" c || between "A" "F" c.

Definition text (acc : list ascii) : string := string_of_list_ascii (rev acc).

(** A value is complete: it becomes the top-level value, an array element,
    an object key or the value of the pending key. *)
Definition complete (v : json) (stack : list Frame) : option Scanner :=
  match stack with
  | [] => Some (mkScanner EndValue [] (Some v))
  | FArray done :: rest => Some (mkScanner EndValue (FArray (v :: done) :: rest) None)
  | FObject done None ObjKey :: rest =>
      match v with
      | JString raw => Some (mkScanner EndValue (FObject done (Some raw) ObjKey :: rest) None)
      | _ => None
      end
  | FObject done (Some k) ObjValue :: rest =>
      Some (mkScanner EndValue (FObject ((k, v) :: done) None ObjValue :: rest) None)
  | FObject _ _ _ :: _ => None
  end.

(** [pushParseState]: the nesting may not exceed [maxNestingDepth]. *)
Definition push (f : Frame) (next : Step) (stack : list Frame) : option Scanner :=
  if Z.of_nat (List.length (f :: stack)) <=? maxNestingDepth
  then Some (mkScanner next (f :: stack) None)
  else None.

Definition stateEndValue (s : Scanner) (c : ascii) : option Scanner :=
  match sc_stack s with
  | [] => if isSpace c then Some s else None
  | FArray done :: rest =>
      if isSpace c then Some s
      else if (c =? ",")%char then Some (mkScanner BeginValue (sc_stack s) None)
      else if (c =? "]")%char then complete (JArray (rev done)) rest
      else None
  | FObject done (Some k) ObjKey :: rest =>
      if isSpace c then Some s
      else if (c =? ":")%char
           then Some (mkScanner BeginValue (FObject done (Some k) ObjValue :: rest) None)
           else None
  | FObject done None ObjValue :: rest =>
      if isSpace c then Some s
      else if (c =? ",")%char
           then Some (mkScanner BeginString (FObject done None ObjKey :: rest) None)
      else if (c =? "}")%char then complete (JObject (rev done)) rest
      else None
  | FObject _ _ _ :: _ => None
  end.

Definition stateBeginValue (s : Scanner) (c : ascii) : option Scanner :=
  let stack := sc_stack s in
  if isSpace c then Some (mkScanner BeginValue stack None)
  else if (c =? "{")%char then push (FObject [] None ObjKey) BeginStringOrEmpty stack
  else if (c =? "[")%char then push (FArray []) BeginValueOrEmpty stack
  else if (c =? quote)%char then Some (mkScanner (InString []) stack None)
  else if (c =? "-")%char then Some (mkScanner (Neg [c]) stack None)
  else if (c =? "0")%char then Some (mkScanner (St0 [c]) stack None)
  else if (c =? "t")%char then Some (mkScanner (Lit ["r"; "u"; "e"]%char (JBool true)) stack None)
  else if (c =? "f")%char
       then Some (mkScanner (Lit ["a"; "l"; "s"; "e"]%char (JBool false)) stack None)
  else if (c =? "n")%char then Some (mkScanner (Lit ["u"; "l"; "l"]%char JNull) stack None)
  else if between "1" "9" c then Some (mkScanner (St1 [c]) stack None)
  else None.

Definition stateBeginString (s : Scanner) (c : ascii) : option Scanner :=
  if isSpace c then Some (mkScanner BeginString (sc_stack s) None)
  else if (c =? quote)%char then Some (mkScanner (InString []) (sc_stack s) None)
  else None.

(** A number ends at the first byte that cannot continue it; that byte is
    then read in [stateEndValue]. *)
Definition endNumber (acc : list ascii) (s : Scanner) (c : ascii) : option Scanner :=
  match complete (JNumber (text acc)) (sc_stack s) with
  | Some s' => stateEndValue s' c
  | None => None
  end.

Definition state0 (acc : list ascii) (s : Scanner) (c : ascii) : option Scanner :=
  if (c =? ".")%char then Some (mkScanner (Dot (c :: acc)) (sc_stack s) None)
  else if (c =? "e")%char || (c =? "E")%char
       then Some (mkScanner (StE (c :: acc)) (sc_stack s) None)
  else endNumber acc s c.

Definition stateESign (acc : list ascii) (s : Scanner) (c : ascii) : option Scanner :=
  if isDigit c then Some (mkScanner (E0 (c :: acc)) (sc_stack s) None) else None.

Definition step (s : Scanner) (c : ascii) : option Scanner :=
  let stack := sc_stack s in
  let go st := Some (mkScanner st stack None) in
  match sc_step s with
  | BeginValueOrEmpty =>
      if isSpace c then Some s
      else if (c =? "]")%char then stateEndValue s c
      else stateBeginValue s c
  | BeginValue => stateBeginValue s c
  | BeginStringOrEmpty =>
      if isSpace c then Some s
      else if (c =? "}")%char then
        match stack with
        | FObject done None ObjKey :: rest =>
            stateEndValue (mkScanner EndValue (FObject done None ObjValue :: rest) None) c
        | _ => None
        end
      else stateBeginString s c
  | BeginString => stateBeginString s c
  | EndValue => stateEndValue s c
  | InString acc =>
      if (c =? quote)%char then complete (JString (text acc)) stack
      else if (c =? "\")%char then go (InStringEsc (c :: acc))
      else if code c <? 32 then None
      else go (InString (c :: acc))
  | InStringEsc acc =>
      if (c =? "b")%char || (c =? "f")%char || (c =? "n")%char || (c =? "r")%char
         || (c =? "t")%char || (c =? "\")%char || (c =? "/")%char || (c =? quote)%char
      then go (InString (c :: acc))
      else if (c =? "u")%char then go (InStringEscU 4 (c :: acc))
      else None
  | InStringEscU missing acc =>
      if isHex c then
        match missing with
        | S (S m) => go (InStringEscU (S m) (c :: acc))
        | _ => go (InString (c :: acc))
        end
      else None
  | Neg acc =>
      if (c =? "0")%char then go (St0 (c :: acc))
      else if between "1" "9" c then go (St1 (c :: acc))
      else None
  | St1 acc => if isDigit c then go (St1 (c :: acc)) else state0 acc s c
  | St0 acc => state0 acc s c
  | Dot acc => if isDigit c then go (Dot0 (c :: acc)) else None
  | Dot0 acc =>
      if isDigit c then go (Dot0 (c :: acc))
      else if (c =? "e")%char || (c =? "E")%char then go (StE (c :: acc))
      else endNumber acc s c
  | StE acc =>
      if (c =? "+")%char || (c =? "-")%char then go (ESign (c :: acc))
      else stateESign acc s c
  | ESign acc => stateESign acc s c
  | E0 acc => if isDigit c then go (E0 (c :: acc)) else endNumber acc s c
  | Lit expect v =>
      match expect with
      | e :: more =>
          if (c =? e)%char then
            match more with
            | [] => complete v stack
            | _ => go (Lit more v)
            end
          else None
      | [] => None
      end
  end.

Fixpoint scan (s : Scanner) (input : string) : option Scanner :=
  match input with
  | EmptyString => Some s
  | String c rest =>
      match step s c with
      | Some s' => scan s' rest
      | None => None
      end
  end.

(** [checkValid]: scan every byte, then [eof], which feeds one space and
    asks whether the top-level value is complete. *)
Definition parse (input : string) : option json :=
  match scan (mkScanner BeginValue [] None) input with
  | Some s =>
      match step s " " with
      | Some (mkScanner EndValue [] (Some v)) => Some v
      | _ => None
      end
  | None => None
  end.

End Json.

(** ** Type-directed decoding, as [encoding/json] does it for the structs of
    kubectl_parse.go

    [Unquote] turns the raw text of a string into its bytes ([unquoteBytes]);
    [Fields] finds the struct field of an object key (exact name first, then
    the case-folded name); [Into] stores a JSON value into a Go value of each
    kind the list structs use.  A decoder takes the value already stored (a
    repeated key decodes into what the first occurrence left) and returns
    [None] where [Unmarshal] reports an error. *)

Module Unquote.

Definition hexval (c : ascii) : Z :=
  if between "0" "9" c then code c - 48
  else if between "a" "f" c then code c - 87
  else code c - 55.

(** [getu4] on four hex digits. *)
Definition hex4 (a b c d : ascii) : Z :=
  ((hexval a * 16 + hexval b) * 16 + hexval c) * 16 + hexval d.

Definition replacement : list ascii := [byte 239; byte 191; byte 189].

(** [utf8.EncodeRune]. *)
Definition EncodeRune (r : Z) : list ascii :=
  if r <? 0 then replacement
  else if r <? 128 then [byte r]
  else if r <? 2048 then [byte (192 + r / 64); byte (128 + r mod 64)]
  else if (55296 <=? r) && (r <=? 57343) then replacement
  else if r <? 65536
       then [byte (224 + r / 4096); byte (128 + (r / 64) mod 64); byte (128 + r mod 64)]
  else if r <=? 1114111
       then [byte (240 + r / 262144); byte (128 + (r / 4096) mod 64);
             byte (128 + (r / 64) mod 64); byte (128 + r mod 64)]
  else replacement.

Definition cont (lo hi : Z) (c : ascii) : bool := (lo <=? code c) && (code c <=? hi).

(** Size of the well-formed UTF-8 sequence that starts the input; [0] when
    [utf8.DecodeRune] answers [RuneError] with size 1. *)
Definition runeSize (s : list ascii) : nat :=
  match s with
  | [] => 0%nat
  | b0 :: s1 =>
      let x := code b0 in
      if (194 <=? x) && (x <=? 223) then
        match s1 with
        | b1 :: _ => if cont 128 191 b1 then 2%nat else 0%nat
        | _ => 0%nat
        end
      else if (224 <=? x) && (x <=? 239) then
        match s1 with
        | b1 :: b2 :: _ =>
            let lo := if x =? 224 then 160 else 128 in
            let hi := if x =? 237 then 159 else 191 in
            if cont lo hi b1 && cont 128 191 b2 then 3%nat else 0%nat
        | _ => 0%nat
        end
      else if (240 <=? x) && (x <=? 244) then
        match s1 with
        | b1 :: b2 :: b3 :: _ =>
            let lo := if x =? 240 then 144 else 128 in
            let hi := if x =? 244 then 143 else 191 in
            if cont lo hi b1 && cont 128 191 b2 && cont 128 191 b3 then 4%nat else 0%nat
        | _ => 0%nat
        end
      else 0%nat
  end.

Definition simpleEscape (e : ascii) : ascii :=
  if (e =? "b")%char then byte 8
  else if (e =? "f")%char then byte 12
  else if (e =? "n")%char then byte 10
  else if (e =? "r")%char then byte 13
  else if (e =? "t")%char then byte 9
  else e.

Definition isHigh (r : Z) : bool := (55296 <=? r) && (r <=? 56319).
Definition isLow (r : Z) : bool := (56320 <=? r) && (r <=? 57343).

(** The loop of [unquoteBytes] over text the scanner has accepted. *)
Fixpoint unquoteBytes (s : list ascii) : list ascii :=
  match s with
  | [] => []
  | c :: r =>
      if (c =? "\")%char then
        match r with
        | [] => []
        | e :: r2 =>
            if (e =? "u")%char then
              match r2 with
              | h1 :: h2 :: h3 :: h4 :: r3 =>
                  let rr := hex4 h1 h2 h3 h4 in
                  if isHigh rr || isLow rr then
                    match r3 with
                    | b :: u :: g1 :: g2 :: g3 :: g4 :: r4 =>
                        let rr1 := hex4 g1 g2 g3 g4 in
                        if (b =? "\")%char && (u =? "u")%char && Json.isHex g1
                           && Json.isHex g2 && Json.isHex g3 && Json.isHex g4
                           && isHigh rr && isLow rr1
                        then EncodeRune ((rr - 55296) * 1024 + (rr1 - 56320) + 65536)
                               ++ unquoteBytes r4
                        else replacement ++ unquoteBytes r3
                    | _ => replacement ++ unquoteBytes r3
                    end
                  else EncodeRune rr ++ unquoteBytes r3
              | _ => []
              end
            else simpleEscape e :: unquoteBytes r2
        end
      else if code c <? 128 then c :: unquoteBytes r
      else
        match runeSize s, r with
        | 4%nat, b1 :: b2 :: b3 :: r' => c :: b1 :: b2 :: b3 :: unquoteBytes r'
        | 3%nat, b1 :: b2 :: r' => c :: b1 :: b2 :: unquoteBytes r'
        | 2%nat, b1 :: r' => c :: b1 :: unquoteBytes r'
        | _, _ => replacement ++ unquoteBytes r
        end
  end.

Definition unquote (raw : string) : string :=
  string_of_list_ascii (unquoteBytes (list_ascii_of_string raw)).

End Unquote.

Module Fields.

(** [foldName]: ASCII letters go to upper case, and the two runes whose
    simple case folding reaches an ASCII letter, U+017F (long s) and U+212A
    (Kelvin sign), go to [S] and [K].  Every other rune stays outside
    ASCII, so it never equals a byte of a folded field name. *)
Fixpoint foldBytes (s : list ascii) : list ascii :=
  match s with
  | [] => []
  | c :: r =>
      if between "a" "z" c then byte (code c - 32) :: foldBytes r
      else
        match r with
        | c1 :: r1 =>
            if (code c =? 197) && (code c1 =? 191) then "S"%char :: foldBytes r1
            else
              match r1 with
              | c2 :: r2 =>
                  if (code c =? 226) && (code c1 =? 132) && (code c2 =? 170)
                  then "K"%char :: foldBytes r2
                  else c :: foldBytes r
              | [] => c :: foldBytes r
              end
        | [] => c :: foldBytes r
        end
  end.

Definition foldName (s : string) : string :=
  string_of_list_ascii (foldBytes (list_ascii_of_string s)).

(** The field an object key names: [exactNameIndex], then
    [foldedNameIndex]. *)
Definition lookup (A : Type) (fields : list (string * A)) (key : string) : option A :=
  match find (fun f => String.eqb (fst f) key) fields with
  | Some f => Some (snd f)
  | None =>
      match find (fun f => String.eqb (foldName (fst f)) (foldName key)) fields with
      | Some f => Some (snd f)
      | None => None
      end
  end.

End Fields.

Module Into.
Import Json.

(** A decoder stores a JSON value into a Go value of type [T], given the
    value that is there, or fails. *)
Definition decoder (T : Type) : Type := json -> T -> option T.

Definition String_ : decoder string := fun v cur =>
  match v with
  | JNull => Some cur
  | JString raw => Some (Unquote.unquote raw)
  | _ => None
  end.

Definition Bool_ : decoder bool := fun v cur =>
  match v with
  | JNull => Some cur
  | JBool b => Some b
  | _ => None
  end.

Fixpoint digits (s : list ascii) (acc : Z) : option Z :=
  match s with
  | [] => Some acc
  | c :: r => if isDigit c then digits r (acc * 10 + (code c - 48)) else None
  end.

(** [strconv.ParseInt(literal, 10, 64)] on the text of a JSON number: a
    fraction or an exponent, or a value outside [int64], is an error. *)
Definition ParseInt (literal : string) : option Z :=
  let range n := if (min_int64 <=? n) && (n <=? max_int64) then Some n else None in
  match list_ascii_of_string literal with
  | [] => None
  | c :: r =>
      if (c =? "-")%char then
        match r with
        | [] => None
        | _ => match digits r 0 with Some n => range (- n) | None => None end
        end
      else match digits (c :: r) 0 with Some n => range n | None => None end
  end.

Definition Int_ : decoder Z := fun v cur =>
  match v with
  | JNull => Some cur
  | JNumber literal => ParseInt literal
  | _ => None
  end.

(** Array elements are decoded into the elements the slice already has;
    a slot past its length starts from the zero value (the spare capacity of
    a slice, which only a list member written three times in one object can
    bring back, is not kept). *)
Fixpoint elements (T : Type) (zero : T) (elem : decoder T) (vs : list json) (cur : list T)
  : option (list T) :=
  match vs with
  | [] => Some []
  | v :: vs' =>
      match elem v (hd zero cur) with
      | Some x =>
          match elements zero elem vs' (tl cur) with
          | Some xs => Some (x :: xs)
          | None => None
          end
      | None => None
      end
  end.

Definition Slice (T : Type) (zero : T) (elem : decoder T) : decoder (list T) := fun v cur =>
  match v with
  | JNull => Some []
  | JArray vs => elements zero elem vs cur
  | _ => None
  end.

(** A pointer field: [null] stores [nil], any other value is decoded into
    the pointee, allocated when the pointer is [nil]. *)
Definition Pointer (T : Type) (zero : T) (elem : decoder T) : decoder (option T) := fun v cur =>
  match v with
  | JNull => Some None
  | _ =>
      match elem v (match cur with Some x => x | None => zero end) with
      | Some x => Some (Some x)
      | None => None
      end
  end.

Fixpoint members (T : Type) (fields : list (string * decoder T))
         (ms : list (string * json)) (cur : T) : option T :=
  match ms with
  | [] => Some cur
  | (key, v) :: ms' =>
      match Fields.lookup fields (Unquote.unquote key) with
      | Some d =>
          match d v cur with
          | Some cur' => members fields ms' cur'
          | None => None
          end
      | None => members fields ms' cur
      end
  end.

(** A struct: [null] leaves it as it is, an object fills the fields its
    keys name (unknown keys are skipped), anything else is a type error. *)
Definition Struct (T : Type) (fields : list (string * decoder T)) : decoder T := fun v cur =>
  match v with
  | JNull => Some cur
  | JObject ms => members fields ms cur
  | _ => None
  end.

(** A struct field of type [A], read with [get] and written with [set]. *)
Definition field (T A : Type) (get : T -> A) (set : A -> T -> T) (d : decoder A) : decoder T :=
  fun v cur =>
    match d v (get cur) with
    | Some a => Some (set a cur)
    | None => None
    end.

(** [time.Time.UnmarshalJSON]: [null] is ignored, a string is handed
    (raw, without the quotes) to the RFC 3339 parser, anything else is an
    error. *)
Definition Time_ (parseRFC3339 : string -> option Z) : decoder Z := fun v cur =>
  match v with
  | JNull => Some cur
  | JString raw => parseRFC3339 raw
  | _ => None
  end.

End Into.

(** ** The process runner (kubectl_runner.go) *)

Module Runner.

(** [os.ProcessState]: the process exited with a status or was ended by a
    signal. *)
Inductive ProcessState : Type :=
| Exited (status : Z)
| Signaled.

Definition Success (ps : ProcessState) : bool :=
  match ps with
  | Exited status => status =? 0
  | Signaled => false
  end.

(** [ProcessState.ExitCode()]. *)
Definition ProcessState_ExitCode (ps : ProcessState) : Z :=
  match ps with
  | Exited status => status
  | Signaled => -1
  end.

(** What happened to the command: it could not be started, or it was
    started and waited for; [interrupted] tells that the context ended
    first and [os/exec] stopped the process. *)
Inductive Waited : Type :=
| NotStarted
| Finished (ps : ProcessState) (interrupted : bool).

(** The [err] of [cmd.Run()]. *)
Inductive RunErr : Type :=
| ErrNil
| ExitError (ps : ProcessState)
| OtherError.

(** [exec.Cmd.Run]: an [*ExitError] for an unsuccessful process state, the
    context's error for an interrupted command that still reported success,
    [nil] otherwise; a start failure is an error of another type. *)
Definition cmdRun (w : Waited) : RunErr :=
  match w with
  | NotStarted => OtherError
  | Finished ps interrupted =>
      if Success ps then (if interrupted then OtherError else ErrNil)
      else ExitError ps
  end.

(** The command did not complete on its own: its context ended first. *)
Definition interrupted (w : Waited) : bool :=
  match w with
  | NotStarted => true
  | Finished _ i => i
  end.

(** [runCtx.Err()]. *)
Inductive CtxErr : Type :=
| CtxNil
| Canceled
| DeadlineExceeded.

(** Everything [Run] observes of one execution of the binary. *)
Record Execution := mkExecution {
  waited : Waited;
  stdout_buf : string;
  stderr_buf : string;
  ctxErr : CtxErr;
  elapsedMs : Z
}.

Definition exitCodeOf (err : RunErr) : Z :=
  match err with
  | ErrNil => 0
  | ExitError ps => ProcessState_ExitCode ps
  | OtherError => -1
  end.

Definition isDeadline (e : CtxErr) : bool :=
  match e with
  | DeadlineExceeded => true
  | _ => false
  end.

(** [KubectlRunner.Run], given what the execution of [args] did. *)
Definition Run (e : Execution) (args : list string) : CommandResult :=
  let exitCode := exitCodeOf (cmdRun (waited e)) in
  let stderr :=
    if isDeadline (ctxErr e) && (len (stderr_buf e) =? 0)
    then stderr_buf e +++ "command timed out"
    else stderr_buf e in
  {| Command := "kubectl " +++ Join args " ";
     Stdout := stdout_buf e;
     Stderr := stderr;
     ExitCode := exitCode;
     DurationMs := elapsedMs e;
     ParsedData := PNil |}.

End Runner.

(** ** What the back end takes from outside

    The external binary, the clock and three functions of the Go standard
    library whose text is not part of the repository. *)

Inductive UnmarshalError : Type :=
| SyntaxError     (* the scanner rejects the text *)
| DecodeError.    (* a value does not fit the Go type it is decoded into *)

Record Env := mkEnv {
  (** what the [k]-th process spawned does, given its arguments and timeout *)
  spawn : nat -> list string -> Z -> Runner.Execution;
  (** [time.Now()] at the [i]-th item of a pod list, in nanoseconds since the
      zero [time.Time] *)
  now : nat -> Z;
  (** the RFC 3339 parser behind [time.Time.UnmarshalJSON] *)
  parseRFC3339 : string -> option Z;
  (** [err.Error()] of the error [json.Unmarshal] returns for an input *)
  errorText : UnmarshalError -> string -> string;
  (** [strings.TrimSpace] *)
  TrimSpace : string -> string
}.

(** ** [time.Duration] and the age formatter (kubectl_parse.go) *)

Module Duration.

Definition Second : Z := 1000000000.
Definition Minute : Z := 60 * Second.
Definition Hour : Z := 60 * Minute.

(** [float64(n)] for an integer below 2^63 in absolute value (exact below
    2^53, which covers every quotient and remainder taken here). *)
Definition float64 (n : Z) : float :=
  if n <? 0 then (- PrimFloat.of_uint63 (Uint63.of_Z (- n)))%float
  else PrimFloat.of_uint63 (Uint63.of_Z n).

(** [int(f)]: the fraction is discarded (truncation towards zero); a NaN
    or an infinity gives the smallest integer, as on amd64. *)
Definition int (f : float) : Z :=
  match Prim2SF f with
  | S754_zero _ => 0
  | S754_finite neg m e =>
      let a := if 0 <=? e then Z.shiftl (Zpos m) e else Z.shiftr (Zpos m) (- e) in
      if neg then - a else a
  | _ => min_int64
  end.

(** [d.Seconds()], [d.Minutes()], [d.Hours()] of package [time]: integer
    quotient and remainder (both truncated), added as floats. *)
Definition Seconds (d : Z) : float :=
  (float64 (Z.quot d Second) + float64 (Z.rem d Second) / 1000000000)%float.

Definition Minutes (d : Z) : float :=
  (float64 (Z.quot d Minute) + float64 (Z.rem d Minute) / 60000000000)%float.

Definition Hours (d : Z) : float :=
  (float64 (Z.quot d Hour) + float64 (Z.rem d Hour) / 3600000000000)%float.

Definition formatAge (d : Z) : string :=
  if d <? Minute then Sprintf_d (int (Seconds d)) +++ "s"
  else if d <? Hour then Sprintf_d (int (Minutes d)) +++ "m"
  else if d <? 24 * Hour then Sprintf_d (int (Hours d)) +++ "h"
  else if d <? 7 * 24 * Hour then Sprintf_d (int (Hours d / 24)%float) +++ "d"
  else if d <? 30 * 24 * Hour then Sprintf_d (int (Hours d / 168)%float) +++ "w"
  else Sprintf_d (int (Hours d / 720)%float) +++ "mo".

(** [time.Since(t)] when the clock reads [clock]: the difference, kept
    within the range of a [Duration]. *)
Definition Since (clock t : Z) : Z := sat64 (clock - t).

End Duration.

(** ** The resource decoders (kubectl_parse.go) *)

Module Parse.
Import Json Into.

(** One element of [namespaceList.Items] and of [kubeConfigView.Contexts]:
    a struct whose only leaf is a name. *)
Record namespaceItem := mkNamespaceItem { ns_Name : string }.
Record contextItem := mkContextItem { ctx_Name : string }.

Record containerStatus := mkContainerStatus {
  Ready : bool;
  RestartCount : Z;
  Waiting : option string;       (* [State.Waiting], [nil] or its [Reason] *)
  Terminated : option string     (* [State.Terminated], [nil] or its [Reason] *)
}.

Record podItem := mkPodItem {
  Name : string;
  CreationTimestamp : Z;         (* nanoseconds since the zero time *)
  OwnerReferences : list string; (* the [Kind] of each reference *)
  Phase : string;
  Reason : string;
  NodeName : string;
  ContainerStatuses : list containerStatus
}.

Definition zeroContainerStatus : containerStatus := mkContainerStatus false 0 None None.
Definition zeroPodItem : podItem := mkPodItem "" 0 [] "" "" "" [].

Definition namespaceItemDecoder : decoder namespaceItem :=
  Struct [("metadata",
           Struct [("name", field ns_Name (fun a _ => mkNamespaceItem a) String_)])].

Definition namespaceListDecoder : decoder (list namespaceItem) :=
  Struct [("items", Slice (mkNamespaceItem "") namespaceItemDecoder)].

Definition contextItemDecoder : decoder contextItem :=
  Struct [("name", field ctx_Name (fun a _ => mkContextItem a) String_)].

Definition kubeConfigViewDecoder : decoder (list contextItem) :=
  Struct [("contexts", Slice (mkContextItem "") contextItemDecoder)].

Definition reasonDecoder : decoder string := Struct [("reason", String_)].

Definition containerStatusDecoder : decoder containerStatus :=
  Struct
    [("ready", field Ready
                 (fun a c => mkContainerStatus a (RestartCount c) (Waiting c) (Terminated c))
                 Bool_);
     ("restartCount", field RestartCount
                 (fun a c => mkContainerStatus (Ready c) a (Waiting c) (Terminated c))
                 Int_);
     ("state",
      Struct
        [("waiting", field Waiting
                 (fun a c => mkContainerStatus (Ready c) (RestartCount c) a (Terminated c))
                 (Pointer "" reasonDecoder));
         ("terminated", field Terminated
                 (fun a c => mkContainerStatus (Ready c) (RestartCount c) (Waiting c) a)
                 (Pointer "" reasonDecoder))])].

Definition podItemDecoder (env : Env) : decoder podItem :=
  Struct
    [("metadata",
      Struct
        [("name", field Name
            (fun a p => mkPodItem a (CreationTimestamp p) (OwnerReferences p) (Phase p)
                          (Reason p) (NodeName p) (ContainerStatuses p))
            String_);
         ("creationTimestamp", field CreationTimestamp
            (fun a p => mkPodItem (Name p) a (OwnerReferences p) (Phase p)
                          (Reason p) (NodeName p) (ContainerStatuses p))
            (Time_ (parseRFC3339 env)));
         ("ownerReferences", field OwnerReferences
            (fun a p => mkPodItem (Name p) (CreationTimestamp p) a (Phase p)
                          (Reason p) (NodeName p) (ContainerStatuses p))
            (Slice "" (Struct [("kind", String_)])))]);
     ("status",
      Struct
        [("phase", field Phase
            (fun a p => mkPodItem (Name p) (CreationTimestamp p) (OwnerReferences p) a
                          (Reason p) (NodeName p) (ContainerStatuses p))
            String_);
         ("reason", field Reason
            (fun a p => mkPodItem (Name p) (CreationTimestamp p) (OwnerReferences p) (Phase p)
                          a (NodeName p) (ContainerStatuses p))
            String_);
         ("nodeName", field NodeName
            (fun a p => mkPodItem (Name p) (CreationTimestamp p) (OwnerReferences p) (Phase p)
                          (Reason p) a (ContainerStatuses p))
            String_);
         ("containerStatuses", field ContainerStatuses
            (fun a p => mkPodItem (Name p) (CreationTimestamp p) (OwnerReferences p) (Phase p)
                          (Reason p) (NodeName p) a)
            (Slice zeroContainerStatus containerStatusDecoder))])].

Definition podListDecoder (env : Env) : decoder (list podItem) :=
  Struct [("items", Slice zeroPodItem (podItemDecoder env))].

(** [json.Unmarshal(data, &x)] for [x] a zero value of the target type. *)
Definition Unmarshal (T : Type) (env : Env) (d : decoder T) (zero : T) (data : string)
  : result T :=
  match parse data with
  | None => Err (errorText env SyntaxError data)
  | Some v =>
      match d v zero with
      | Some x => Ok x
      | None => Err (errorText env DecodeError data)
      end
  end.

Definition parseNamespaces (env : Env) (stdout : string) : result (list Namespace) :=
  match Unmarshal env namespaceListDecoder [] stdout with
  | Err msg => Err msg
  | Ok items =>
      Ok (fold_left
            (fun namespaces item =>
               if String.eqb (ns_Name item) "" then namespaces
               else namespaces ++ [mkNamespace (ns_Name item)])
            items [])
  end.

Definition parseContexts (env : Env) (stdout : string) : result (list string) :=
  match Unmarshal env kubeConfigViewDecoder [] stdout with
  | Err msg => Err msg
  | Ok contexts =>
      Ok (fold_left
            (fun out ctx =>
               if negb (String.eqb (ctx_Name ctx) "") then out ++ [ctx_Name ctx] else out)
            contexts [])
  end.

(** The loop variables of the inner loop of [parsePods]. *)
Record tally := mkTally { readyCount : Z; restarts : Z; status : string }.

Definition containerStep (t : tally) (cs : containerStatus) : tally :=
  let readyCount := if Ready cs then readyCount t + 1 else readyCount t in
  let restarts := wrap64 (restarts t + RestartCount cs) in
  let status :=
    match Waiting cs with
    | Some reason => if negb (String.eqb reason "") then reason else status t
    | None => status t
    end in
  let status :=
    match Terminated cs with
    | Some reason => if negb (String.eqb reason "") then reason else status
    | None => status
    end in
  mkTally readyCount restarts status.

(** The body of the outer loop of [parsePods]: the view record of one
    item, with the clock reading [clock] at that moment. *)
Definition podOf (clock : Z) (item : podItem) : Pod :=
  let initial := if negb (String.eqb (Reason item) "") then Reason item else Phase item in
  let t := fold_left containerStep (ContainerStatuses item) (mkTally 0 0 initial) in
  let total := Z.of_nat (List.length (ContainerStatuses item)) in
  let ready := Sprintf_d (readyCount t) +++ "/" +++ Sprintf_d total in
  let age :=
    if negb (CreationTimestamp item =? 0)
    then Duration.formatAge (Duration.Since clock (CreationTimestamp item))
    else "-" in
  let node := if String.eqb (NodeName item) "" then "-" else NodeName item in
  {| Pod_Name := Name item;
     Pod_Status := status t;
     Pod_Ready := ready;
     Pod_Restarts := restarts t;
     Pod_Age := age;
     Pod_Node := node;
     Pod_HasOwner := (0 <? List.length (OwnerReferences item))%nat |}.

Fixpoint podsFrom (env : Env) (i : nat) (items : list podItem) (pods : list Pod) : list Pod :=
  match items with
  | [] => pods
  | item :: rest => podsFrom env (S i) rest (pods ++ [podOf (now env i) item])
  end.

Definition parsePods (env : Env) (stdout : string) : result (list Pod) :=
  match Unmarshal env (podListDecoder env) [] stdout with
  | Err msg => Err msg
  | Ok items => Ok (podsFrom env 0 items [])
  end.

End Parse.

(** ** The command service (the methods of [App])

    The state of an [App] is its transcript; [spawned] is the log of the
    processes the runner has started (arguments and timeout), which the
    code does not keep and the properties below speak about. *)

Module App.
Import Validate.

Record App := mkApp {
  transcript : list CommandResult;
  spawned : list (list string * Z)
}.

Definition NewApp : App := mkApp [] [].

(** A method of [*App] that returns an [A]. *)
Definition M (A : Type) : Type := App -> A * App.

Definition ret (A : Type) (x : A) : M A := fun a => (x, a).

Definition bind (A B : Type) (m : M A) (k : A -> M B) : M B :=
  fun a => let (x, a') := m a in k x a'.

Notation "x <- m ;; k" := (bind m (fun x => k))
  (at level 61, m at next level, right associativity).
Notation "m ;;; k" := (bind m (fun _ => k))
  (at level 61, right associativity).

Definition defaultTimeout : Z := 15 * Duration.Second.
Definition logsTimeout : Z := 30 * Duration.Second.

(** [a.runKubectl]: one process, whose behaviour is the environment's. *)
Definition runKubectl (env : Env) (args : list string) (timeout : Z) : M CommandResult :=
  fun a =>
    (Runner.Run (spawn env (List.length (spawned a)) args timeout) args,
     mkApp (transcript a) (spawned a ++ [(args, timeout)])).

Definition record (result : CommandResult) : M unit :=
  fun a => (tt, mkApp (Transcript.record result (transcript a)) (spawned a)).

Definition GetTranscript : M (list CommandResult) :=
  fun a => (transcript a, a).

Definition ClearTranscript : M unit :=
  fun a => (tt, mkApp (Transcript.ClearTranscript (transcript a)) (spawned a)).

Definition invalidResult (args : list string) (err : string) : CommandResult :=
  {| Command := "kubectl " +++ Join args " ";
     Stdout := "";
     Stderr := err;
     ExitCode := -1;
     DurationMs := 0;
     ParsedData := PNil |}.

Definition newline : string := String "010" EmptyString.

Definition appendParseError (result : CommandResult) (err : string) : CommandResult :=
  let stderr :=
    if negb (String.eqb (Stderr result) "") then Stderr result +++ newline
    else Stderr result in
  {| Command := Command result;
     Stdout := Stdout result;
     Stderr := stderr +++ "parse error: " +++ err;
     ExitCode := ExitCode result;
     DurationMs := DurationMs result;
     ParsedData := ParsedData result |}.

Definition withParsed (result : CommandResult) (p : Parsed) : CommandResult :=
  {| Command := Command result;
     Stdout := Stdout result;
     Stderr := Stderr result;
     ExitCode := ExitCode result;
     DurationMs := DurationMs result;
     ParsedData := p |}.

(** The shared middle of the three list methods: decode the output of a
    process that exited with 0. *)
Definition decoded (A : Type) (parser : string -> result A) (wrap : A -> Parsed)
           (result : CommandResult) : CommandResult :=
  if ExitCode result =? 0 then
    match parser (Stdout result) with
    | Err msg => appendParseError result msg
    | Ok parsed => withParsed result (wrap parsed)
    end
  else result.

Definition ListContexts (env : Env) : M CommandResult :=
  let args := ["config"; "view"; "-o"; "json"] in
  result <- runKubectl env args defaultTimeout ;;
  let result := decoded (Parse.parseContexts env) PContexts result in
  record result ;;;
  ret result.

Definition GetCurrentContext (env : Env) : M CommandResult :=
  let args := ["config"; "current-context"] in
  result <- runKubectl env args defaultTimeout ;;
  let result :=
    if ExitCode result =? 0
    then withParsed result (PString (TrimSpace env (Stdout result)))
    else result in
  record result ;;;
  ret result.

Definition SetContext (env : Env) (name : string) : M CommandResult :=
  match validateContextName name with
  | Some err => ret (invalidResult ["config"; "use-context"; name] err)
  | None =>
      let args := ["config"; "use-context"; name] in
      result <- runKubectl env args defaultTimeout ;;
      record result ;;;
      ret result
  end.

Definition ListNamespaces (env : Env) (contextName : string) : M CommandResult :=
  match withContext ["get"; "ns"; "-o"; "json"] contextName with
  | Err err =>
      ret (invalidResult ["--context"; contextName; "get"; "ns"; "-o"; "json"] err)
  | Ok args =>
      result <- runKubectl env args defaultTimeout ;;
      let result := decoded (Parse.parseNamespaces env) PNamespaces result in
      record result ;;;
      ret result
  end.

Definition ListPods (env : Env) (contextName namespace : string) : M CommandResult :=
  match validateNamespace namespace with
  | Some err => ret (invalidResult ["get"; "pods"; "-n"; namespace; "-o"; "json"] err)
  | None =>
      match withContext ["get"; "pods"; "-n"; namespace; "-o"; "json"] contextName with
      | Err err =>
          ret (invalidResult
                 ["--context"; contextName; "get"; "pods"; "-n"; namespace; "-o"; "json"] err)
      | Ok args =>
          result <- runKubectl env args defaultTimeout ;;
          let result := decoded (Parse.parsePods env) PPods result in
          record result ;;;
          ret result
      end
  end.

Definition DeletePod (env : Env) (contextName namespace name : string) : M CommandResult :=
  match validateNamespace namespace with
  | Some err => ret (invalidResult ["delete"; "pod"; name; "-n"; namespace] err)
  | None =>
      match validatePodName name with
      | Some err => ret (invalidResult ["delete"; "pod"; name; "-n"; namespace] err)
      | None =>
          match withContext ["delete"; "pod"; name; "-n"; namespace] contextName with
          | Err err =>
              ret (invalidResult
                     ["--context"; contextName; "delete"; "pod"; name; "-n"; namespace] err)
          | Ok args =>
              result <- runKubectl env args defaultTimeout ;;
              record result ;;;
              ret result
          end
      end
  end.

Definition GetPodLogs (env : Env) (contextName namespace name : string) (tail : Z)
  : M CommandResult :=
  match validateNamespace namespace with
  | Some err => ret (invalidResult ["logs"; name; "-n"; namespace] err)
  | None =>
      match validatePodName name with
      | Some err => ret (invalidResult ["logs"; name; "-n"; namespace] err)
      | None =>
          let tail := if tail <=? 0 then 100 else tail in
          match withContext ["logs"; name; "-n"; namespace; "--tail=" +++ Sprintf_d tail]
                            contextName with
          | Err err =>
              ret (invalidResult
                     ["--context"; contextName; "logs"; name; "-n"; namespace] err)
          | Ok args =>
              result <- runKubectl env args logsTimeout ;;
              record result ;;;
              ret result
          end
      end
  end.

Definition DescribePod (env : Env) (contextName namespace name : string) : M CommandResult :=
  match validateNamespace namespace with
  | Some err => ret (invalidResult ["describe"; "pod"; name; "-n"; namespace] err)
  | None =>
      match validatePodName name with
      | Some err => ret (invalidResult ["describe"; "pod"; name; "-n"; namespace] err)
      | None =>
          match withContext ["describe"; "pod"; name; "-n"; namespace] contextName with
          | Err err =>
              ret (invalidResult
                     ["--context"; contextName; "describe"; "pod"; name; "-n"; namespace] err)
          | Ok args =>
              result <- runKubectl env args defaultTimeout ;;
              record result ;;;
              ret result
          end
      end
  end.

(** One call of the method surface, as data. *)
Inductive Call : Type :=
| CallListContexts
| CallGetCurrentContext
| CallSetContext (name : string)
| CallListNamespaces (contextName : string)
| CallListPods (contextName namespace : string)
| CallDeletePod (contextName namespace name : string)
| CallGetPodLogs (contextName namespace name : string) (tail : Z)
| CallDescribePod (contextName namespace name : string).

Definition invoke (env : Env) (c : Call) : M CommandResult :=
  match c with
  | CallListContexts => ListContexts env
  | CallGetCurrentContext => GetCurrentContext env
  | CallSetContext name => SetContext env name
  | CallListNamespaces contextName => ListNamespaces env contextName
  | CallListPods contextName namespace => ListPods env contextName namespace
  | CallDeletePod contextName namespace name => DeletePod env contextName namespace name
  | CallGetPodLogs contextName namespace name tail =>
      GetPodLogs env contextName namespace name tail
  | CallDescribePod contextName namespace name => DescribePod env contextName namespace name
  end.

End App.

(** ** The specification's own wording, as definitions

    These follow the sentences of the specification, not the code; the
    theorems below compare them with the definitions above. *)

Module Spec.
Import Parse App.

(** The last [n] elements of a sequence, in order. *)
Definition lastN (A : Type) (n : nat) (l : list A) : list A :=
  skipn (List.length l - n) l.

(** The number of characters of a UTF-8 text: the bytes that are not
    continuation bytes. *)
Definition characters (s : string) : Z :=
  Z.of_nat (List.length (filter (fun c => negb ((128 <=? code c) && (code c <=? 191)))
                                (list_ascii_of_string s))).

Definition lowerAlnum (c : ascii) : bool := between "a" "z" c || between "0" "9" c.

Definition hyphen (c : ascii) : bool := (c =? "-")%char.

(** The DNS-1123 label rule: a non-empty string of lowercase alphanumerics
    and hyphens, not starting or ending with a hyphen, at most 253
    characters. *)
Definition dns1123Label (s : string) : bool :=
  let cs := list_ascii_of_string s in
  match cs with
  | [] => false
  | first :: _ =>
      forallb (fun c => lowerAlnum c || hyphen c) cs
      && negb (hyphen first)
      && negb (hyphen (last cs first))
      && (characters s <=? 253)
  end.

(** Pod status precedence.  The reason a container contributes: its
    terminated reason if non-empty, else its waiting reason if non-empty. *)
Definition nonEmpty (o : option string) : option string :=
  match o with
  | Some r => if String.eqb r "" then None else Some r
  | None => None
  end.

Definition containerReason (cs : containerStatus) : option string :=
  match nonEmpty (Terminated cs) with
  | Some r => Some r
  | None => nonEmpty (Waiting cs)
  end.

(** The reason of the last container, in listed order, that has one. *)
Fixpoint lastReason (l : list containerStatus) : option string :=
  match l with
  | [] => None
  | cs :: rest =>
      match lastReason rest with
      | Some r => Some r
      | None => containerReason cs
      end
  end.

Definition statusByPrecedence (item : podItem) : string :=
  match lastReason (ContainerStatuses item) with
  | Some r => r
  | None => if String.eqb (Reason item) "" then Phase item else Reason item
  end.

(** The fixed argument sequence of each operation. *)
Definition fixedArgs (c : Call) : list string :=
  match c with
  | CallListContexts => ["config"; "view"; "-o"; "json"]
  | CallGetCurrentContext => ["config"; "current-context"]
  | CallSetContext name => ["config"; "use-context"; name]
  | CallListNamespaces _ => ["get"; "ns"; "-o"; "json"]
  | CallListPods _ namespace => ["get"; "pods"; "-n"; namespace; "-o"; "json"]
  | CallDeletePod _ namespace name => ["delete"; "pod"; name; "-n"; namespace]
  | CallGetPodLogs _ namespace name tail =>
      ["logs"; name; "-n"; namespace;
       "--tail=" +++ Sprintf_d (if tail <=? 0 then 100 else tail)]
  | CallDescribePod _ namespace name => ["describe"; "pod"; name; "-n"; namespace]
  end.

(** The context an operation is scoped to; the three [config] operations
    take none. *)
Definition contextOf (c : Call) : string :=
  match c with
  | CallListNamespaces contextName
  | CallListPods contextName _
  | CallDeletePod contextName _ _
  | CallGetPodLogs contextName _ _ _
  | CallDescribePod contextName _ _ => contextName
  | _ => ""
  end.

Definition expectedArgs (c : Call) : list string :=
  if String.eqb (contextOf c) "" then fixedArgs c
  else "--context" :: contextOf c :: fixedArgs c.

Definition timeoutOf (c : Call) : Z :=
  match c with
  | CallGetPodLogs _ _ _ _ => logsTimeout
  | _ => defaultTimeout
  end.

(** A context name is acceptable when it is empty, or at most 253 bytes of
    the safe character set, starting with a letter or a digit. *)
Definition contextOk (name : string) : bool :=
  match Validate.validateContextName name with
  | None => true
  | Some _ => false
  end.

(** The inputs of a call pass validation. *)
Definition validCall (c : Call) : bool :=
  match c with
  | CallListContexts | CallGetCurrentContext => true
  | CallSetContext name => contextOk name
  | CallListNamespaces contextName => contextOk contextName
  | CallListPods contextName namespace => dns1123Label namespace && contextOk contextName
  | CallDeletePod contextName namespace name
  | CallGetPodLogs contextName namespace name _
  | CallDescribePod contextName namespace name =>
      dns1123Label namespace && dns1123Label name && contextOk contextName
  end.

(** The three list operations, whose output is decoded. *)
Definition isList (c : Call) : bool :=
  match c with
  | CallListContexts | CallListNamespaces _ | CallListPods _ _ => true
  | _ => false
  end.

(** The age buckets with truncating integer division. *)
Definition ageByBuckets (d : Z) : string :=
  let second := 1000000000 in
  let hour := 3600 * second in
  let day := 24 * hour in
  if d <? 60 * second then Sprintf_d (d / second) +++ "s"
  else if d <? hour then Sprintf_d (d / (60 * second)) +++ "m"
  else if d <? day then Sprintf_d (d / hour) +++ "h"
  else if d <? 7 * day then Sprintf_d (d / day) +++ "d"
  else if d <? 30 * day then Sprintf_d (d / (7 * day)) +++ "w"
  else Sprintf_d (d / (30 * day)) +++ "mo".

(** The unit of the bucket a duration falls into. *)
Definition unitOf (d : Z) : string :=
  let second := 1000000000 in
  let day := 24 * 3600 * second in
  if d <? 60 * second then "s"
  else if d <? 3600 * second then "m"
  else if d <? day then "h"
  else if d <? 7 * day then "d"
  else if d <? 30 * day then "w"
  else "mo".

(** An object key names the field [fieldName] of a Go struct. *)
Definition names (fieldName key : string) : bool :=
  String.eqb fieldName key || String.eqb (Fields.foldName fieldName) (Fields.foldName key).

(** A value of a list field that leaves the list without items: [null] or
    the empty array. *)
Definition noItems (v : Json.json) : bool :=
  match v with
  | Json.JNull => true
  | Json.JArray [] => true
  | _ => false
  end.

(** A JSON value from which a list struct decodes to no items: [null], or
    an object in which every member for the list field, if there is one, is
    [null] or the empty array. *)
Definition emptyList (fieldName : string) (v : Json.json) : bool :=
  match v with
  | Json.JNull => true
  | Json.JObject ms =>
      forallb (fun m => negb (names fieldName (Unquote.unquote (fst m))) || noItems (snd m)) ms
  | _ => false
  end.

(** A value that a list field does not take: neither [null] nor an array. *)
Definition notAList (v : Json.json) : bool :=
  match v with
  | Json.JNull => false
  | Json.JArray _ => false
  | _ => true
  end.

(** A JSON value of the wrong kind for a list struct: an array, a string, a
    number or a boolean, or an object with a member for the list field that
    is neither [null] nor an array. *)
Definition wrongKind (fieldName : string) (v : Json.json) : bool :=
  match v with
  | Json.JNull => false
  | Json.JObject ms =>
      existsb (fun m => names fieldName (Unquote.unquote (fst m)) && notAList (snd m)) ms
  | _ => true
  end.

End Spec.

(** A process that prints [out] and exits with status 0, an environment
    whose binary always behaves so, and sample envelopes: the concrete
    inputs of the examples below. *)

Definition cleanExit (out : string) : Runner.Execution :=
  Runner.mkExecution (Runner.Finished (Runner.Exited 0) false) out "" Runner.CtxNil 12.

Definition printing (out : string) : Env :=
  {| spawn := fun _ _ _ => cleanExit out;
     now := fun _ => 0;
     parseRFC3339 := fun _ => None;
     errorText := fun e _ =>
       match e with
       | SyntaxError => "invalid character"
       | DecodeError => "cannot unmarshal"
       end;
     TrimSpace := fun s => s |}.

(** Sample JSON texts are written with ['] where the text has a double
    quote. *)
Fixpoint jsonText (s : string) : string :=
  match s with
  | EmptyString => EmptyString
  | String c rest => String (if (c =? "'")%char then Json.quote else c) (jsonText rest)
  end.

Definition envelope (n : nat) : CommandResult :=
  mkResult "kubectl" "" "" (Z.of_nat n) 0 PNil.

(** ** Auxiliary definitions of the proofs *)

(** The language of a pattern, as a relation between the pattern and the
    words it matches. *)

Module RegexpSem.
Import Regexp.

Inductive lang : regexp -> list ascii -> Prop :=
| LEps : lang Eps []
| LClass ranges c : in_class ranges c = true -> lang (Class ranges) [c]
| LCat r1 r2 s1 s2 : lang r1 s1 -> lang r2 s2 -> lang (Cat r1 r2) (s1 ++ s2)
| LAltL r1 r2 s : lang r1 s -> lang (Alt r1 r2) s
| LAltR r1 r2 s : lang r2 s -> lang (Alt r1 r2) s
| LStarNil r : lang (Star r) []
| LStarApp r s1 s2 : lang r s1 -> lang (Star r) s2 -> lang (Star r) (s1 ++ s2).

End RegexpSem.

(** The shape part of the rule, without the length bound. *)
Definition labelShape (cs : list ascii) : bool :=
  match cs with
  | [] => false
  | first :: _ =>
      forallb (fun c => Spec.lowerAlnum c || Spec.hyphen c) cs
      && negb (Spec.hyphen first) && negb (Spec.hyphen (last cs first))
  end.


(** The command service seen from a call: the process it starts and what it
    does with the envelope of the runner. *)

Module Service.
Import App.

(** What a method does with the envelope of the runner before recording it. *)
Definition finish (env : Env) (c : Call) (p : CommandResult) : CommandResult :=
  match c with
  | CallListContexts => decoded (Parse.parseContexts env) PContexts p
  | CallListNamespaces _ => decoded (Parse.parseNamespaces env) PNamespaces p
  | CallListPods _ _ => decoded (Parse.parsePods env) PPods p
  | CallGetCurrentContext =>
      if ExitCode p =? 0 then withParsed p (PString (TrimSpace env (Stdout p))) else p
  | _ => p
  end.

(** The envelope the runner returns for the process of call [c] started
    in state [a]. *)
Definition processOf (env : Env) (c : Call) (a : App) : CommandResult :=
  Runner.Run (spawn env (List.length (spawned a)) (Spec.expectedArgs c) (Spec.timeoutOf c))
             (Spec.expectedArgs c).

(** The state after a sequence of calls. *)
Definition invokeAll (env : Env) (cs : list Call) (a : App) : App :=
  fold_left (fun a' c => snd (invoke env c a')) cs a.

End Service.

(** The error of the first validator that fails. *)
Definition firstError (namespace name : string) : Go.error :=
  match Validate.validateNamespace namespace with
  | Some e => Some e
  | None => Validate.validatePodName name
  end.

(** The outcome of a call rejected with message [msg] in state [a]. *)
Definition rejectedWith (msg : Go.error) (a : App.App) (ra : CommandResult * App.App) : Prop :=
  ExitCode (fst ra) = -1
  /\ Stdout (fst ra) = ""
  /\ Some (Stderr (fst ra)) = msg
  /\ App.spawned (snd ra) = App.spawned a
  /\ snd ra = a.

(** ** Definitions of the further properties *)

(** A name that is not the empty string. *)
Definition nonEmptyName (n : string) : bool := negb (String.eqb n "").

(** The sum of the restart counts of a pod's containers. *)
Definition restartSum (cs : list Parse.containerStatus) : Z :=
  fold_right (fun c acc => Parse.RestartCount c + acc) 0 cs.

(** The number of containers reported ready. *)
Definition readyContainers (cs : list Parse.containerStatus) : nat :=
  List.length (filter Parse.Ready cs).

Definition alnumChar (c : ascii) : bool :=
  between "A" "Z" c || between "a" "z" c || between "0" "9" c.

(** The characters a context name may hold after its first one. *)
Definition safeChar (c : ascii) : bool :=
  alnumChar c || (c =? ".")%char || (c =? "_")%char || (c =? ":")%char
  || (c =? "@")%char || (c =? "/")%char || (c =? "-")%char.

(** A non-empty context name the validator lets through: a letter or digit,
    then safe characters, 253 bytes at most. *)
Definition safeContextName (s : string) : bool :=
  match list_ascii_of_string s with
  | [] => false
  | first :: rest => alnumChar first && forallb safeChar rest && (len s <=? 253)
  end.

(** The strings of a call that come from the caller. *)
Definition userInputs (c : App.Call) : list string :=
  match c with
  | App.CallListContexts | App.CallGetCurrentContext => []
  | App.CallSetContext name => [name]
  | App.CallListNamespaces contextName => [contextName]
  | App.CallListPods contextName namespace => [contextName; namespace]
  | App.CallDeletePod contextName namespace name
  | App.CallGetPodLogs contextName namespace name _
  | App.CallDescribePod contextName namespace name => [contextName; namespace; name]
  end.

(** The context name a call is given, and whether its namespace and pod
    name are labels. *)
Definition contextInput (c : App.Call) : string :=
  match c with
  | App.CallSetContext name => name
  | _ => Spec.contextOf c
  end.

Definition labelsOk (c : App.Call) : bool :=
  match c with
  | App.CallListPods _ namespace => Spec.dns1123Label namespace
  | App.CallDeletePod _ namespace name
  | App.CallGetPodLogs _ namespace name _
  | App.CallDescribePod _ namespace name => Spec.dns1123Label namespace && Spec.dns1123Label name
  | _ => true
  end.

(** The envelopes returned by those of the calls [cs], made one after the
    other from state [a], that pass validation. *)
Fixpoint recorded (env : Env) (cs : list App.Call) (a : App.App) : list CommandResult :=
  match cs with
  | [] => []
  | c :: rest =>
      (if Spec.validCall c then [fst (App.invoke env c a)] else [])
        ++ recorded env rest (snd (App.invoke env c a))
  end.

(** A byte that stands for itself inside a JSON string: printable ASCII
    other than the double quote and the backslash. *)
Definition plainChar (c : ascii) : bool :=
  (32 <=? code c) && (code c <? 128) && negb (c =? Json.quote)%char && negb (c =? "\")%char.

Definition plainName (s : string) : bool := forallb plainChar (list_ascii_of_string s).

(** The text of a list document of [kubectl get ns -o json], reduced to the
    members the decoder reads: an object whose [items] are objects with a
    [metadata.name]. *)
Definition namespaceOpen : string := Eval cbv in jsonText "{'metadata':{'name':'".
Definition namespaceClose : string := Eval cbv in jsonText "'}}".

Definition namespaceItemText (name : string) : string :=
  namespaceOpen +++ name +++ namespaceClose.

Definition namespaceListOpen : string := Eval cbv in jsonText "{'items':[".

Definition namespaceListText (names : list string) : string :=
  namespaceListOpen +++ Join (map namespaceItemText names) "," +++ "]}".

(** The text of [kubectl config view -o json], reduced likewise. *)
Definition contextOpen : string := Eval cbv in jsonText "{'name':'".
Definition contextClose : string := Eval cbv in jsonText "'}".

Definition contextItemText (name : string) : string := contextOpen +++ name +++ contextClose.

Definition contextListOpen : string := Eval cbv in jsonText "{'contexts':[".

Definition contextListText (names : list string) : string :=
  contextListOpen +++ Join (map contextItemText names) "," +++ "]}".

(** The values the scanner builds for the items of those documents. *)
Definition namespaceJson (name : string) : Json.json :=
  Json.JObject [("metadata", Json.JObject [("name", Json.JString name)])].

Definition contextJson (name : string) : Json.json :=
  Json.JObject [("name", Json.JString name)].

(** ** Writing JSON text

    A value written without white space, members and elements in order;
    strings are written as their raw text between quotes. *)

Module Printer.
Import Json.

Definition quoted (raw : string) : string := String quote (raw +++ String quote "").

Fixpoint render (v : json) : string :=
  match v with
  | JNull => "null"
  | JBool b => if b then "true" else "false"
  | JNumber literal => literal
  | JString raw => quoted raw
  | JArray vs => "[" +++ Join (map render vs) "," +++ "]"
  | JObject ms =>
      "{" +++ Join (map (fun m => quoted (fst m) +++ ":" +++ render (snd m)) ms) "," +++ "}"
  end.

(** How deep the containers of a value nest. *)
Fixpoint depth (v : json) : nat :=
  match v with
  | JArray vs => S (fold_right (fun x d => Nat.max (depth x) d) 0%nat vs)
  | JObject ms => S (fold_right (fun m d => Nat.max (depth (snd m)) d) 0%nat ms)
  | _ => 0%nat
  end.

(** A value [render] writes as text that reads back: its strings and keys
    are plain, and it holds no number (a number has no closing byte). *)
Fixpoint printable (v : json) : bool :=
  match v with
  | JNull | JBool _ => true
  | JNumber _ => false
  | JString raw => plainName raw
  | JArray vs => forallb printable vs
  | JObject ms => forallb (fun m => plainName (fst m) && printable (snd m)) ms
  end.

End Printer.

(** ** A pod list document

    The text of [kubectl get pods -o json] reduced to the members the status
    derivation reads: the name, the phase and reason of the pod, and for each
    container its readiness and the reasons of its waiting and terminated
    states ([null] for a state that is absent). *)

Definition reasonJson (o : option string) : Json.json :=
  match o with
  | None => Json.JNull
  | Some r => Json.JObject [("reason", Json.JString r)]
  end.

Definition containerJson (cs : Parse.containerStatus) : Json.json :=
  Json.JObject
    [("ready", Json.JBool (Parse.Ready cs));
     ("state",
      Json.JObject [("waiting", reasonJson (Parse.Waiting cs));
                    ("terminated", reasonJson (Parse.Terminated cs))])].

Definition podJson (item : Parse.podItem) : Json.json :=
  Json.JObject
    [("metadata", Json.JObject [("name", Json.JString (Parse.Name item))]);
     ("status",
      Json.JObject
        [("phase", Json.JString (Parse.Phase item));
         ("reason", Json.JString (Parse.Reason item));
         ("containerStatuses", Json.JArray (map containerJson (Parse.ContainerStatuses item)))])].

Definition podListJson (items : list Parse.podItem) : Json.json :=
  Json.JObject [("items", Json.JArray (map podJson items))].

Definition podListText (items : list Parse.podItem) : string :=
  Printer.render (podListJson items).

Definition plainReason (o : option string) : bool :=
  match o with
  | None => true
  | Some r => plainName r
  end.

(** The strings of the item that the document holds are plain. *)
Definition writable (item : Parse.podItem) : bool :=
  plainName (Parse.Name item) && plainName (Parse.Phase item) && plainName (Parse.Reason item)
  && forallb (fun cs => plainReason (Parse.Waiting cs) && plainReason (Parse.Terminated cs))
             (Parse.ContainerStatuses item).

(** What the decoder gets back from the document of an item: the members
    that are not written are zero. *)
Definition writtenContainer (cs : Parse.containerStatus) : Parse.containerStatus :=
  Parse.mkContainerStatus (Parse.Ready cs) 0 (Parse.Waiting cs) (Parse.Terminated cs).

Definition written (item : Parse.podItem) : Parse.podItem :=
  Parse.mkPodItem (Parse.Name item) 0 [] (Parse.Phase item) (Parse.Reason item) ""
                  (map writtenContainer (Parse.ContainerStatuses item)).

(** The reasons as the decoder reads them. *)
Definition unquoted (o : option string) : option string :=
  match o with
  | None => None
  | Some r => Some (Unquote.unquote r)
  end.

(** ** Auxiliary definitions of the document proofs *)

Section JsonInduction.
Import Json.
Variable P : json -> Prop.
Hypothesis on_null : P JNull.
Hypothesis on_bool : forall b, P (JBool b).
Hypothesis on_number : forall literal, P (JNumber literal).
Hypothesis on_string : forall raw, P (JString raw).
Hypothesis on_array : forall vs, Forall P vs -> P (JArray vs).
Hypothesis on_object : forall ms, Forall (fun m => P (snd m)) ms -> P (JObject ms).

Fixpoint json_induction (v : json) : P v :=
  match v with
  | JNull => on_null
  | JBool b => on_bool b
  | JNumber literal => on_number literal
  | JString raw => on_string raw
  | JArray vs =>
      on_array
        ((fix each (l : list json) : Forall P l :=
            match l with
            | [] => Forall_nil P
            | x :: rest => Forall_cons x (json_induction x) (each rest)
            end) vs)
  | JObject ms =>
      on_object
        ((fix each (l : list (string * json)) : Forall (fun m => P (snd m)) l :=
            match l with
            | [] => Forall_nil _
            | m :: rest => Forall_cons m (json_induction (snd m)) (each rest)
            end) ms)
  end.

End JsonInduction.

Section Reading.
Import Json Printer.

(** What it takes for [render v] to be read as [v] on top of [stack]. *)
Definition reads (v : json) : Prop :=
  forall stack (first : bool),
    Z.of_nat (List.length stack) + Z.of_nat (depth v) <= maxNestingDepth ->
    scan (mkScanner (if first then BeginValueOrEmpty else BeginValue) stack None) (render v)
    = complete v stack.

End Reading.

(** Evaluates the object keys of the goal that are known. *)
Ltac known_keys :=
  repeat match goal with
         | |- context [Unquote.unquote ?k] =>
             tryif is_var k then fail
             else (let r := eval vm_compute in (Unquote.unquote k) in
                   change (Unquote.unquote k) with r)
         end.


(** * Properties *)

Section RegexpFacts.
Import Regexp RegexpSem.

Lemma lang_void_inv s : lang Void s -> False.
Proof. intro H; inversion H. Qed.

Lemma lang_eps_inv s : lang Eps s -> s = [].
Proof. intro H; inversion H; reflexivity. Qed.

Lemma lang_class_inv ranges s :
  lang (Class ranges) s -> exists c, s = [c] /\ in_class ranges c = true.
Proof. intro H; inversion H; subst; eauto. Qed.

Lemma lang_cat_inv r1 r2 s :
  lang (Cat r1 r2) s -> exists s1 s2, s = s1 ++ s2 /\ lang r1 s1 /\ lang r2 s2.
Proof. intro H; inversion H; subst; eauto. Qed.

Lemma lang_alt_inv r1 r2 s : lang (Alt r1 r2) s -> lang r1 s \/ lang r2 s.
Proof. intro H; inversion H; subst; auto. Qed.

Lemma lang_cat_cons r1 r2 c s1 s2 :
  lang r1 (c :: s1) -> lang r2 s2 -> lang (Cat r1 r2) (c :: s1 ++ s2).
Proof. intros H1 H2. apply (LCat H1 H2). Qed.

Lemma nullable_lang r : nullable r = true <-> lang r [].
Proof.
  split.
  - induction r; simpl; intro H; try discriminate.
    + constructor.
    + apply andb_true_iff in H as [H1 H2].
      apply (LCat (s1 := []) (s2 := [])); auto.
    + apply orb_true_iff in H as [H|H]; [apply LAltL | apply LAltR]; auto.
    + constructor.
  - induction r; simpl; intro H; auto.
    + destruct (lang_void_inv H).
    + apply lang_class_inv in H as (c & E & _). discriminate.
    + apply lang_cat_inv in H as (s1 & s2 & E & H1 & H2).
      symmetry in E. apply app_eq_nil in E as [-> ->].
      rewrite IHr1, IHr2; auto.
    + apply lang_alt_inv in H as [H|H].
      * rewrite IHr1; auto.
      * rewrite IHr2, orb_true_r; auto.
Qed.

Lemma star_cons r c s :
  lang (Star r) (c :: s) ->
  exists s1 s2, s = s1 ++ s2 /\ lang r (c :: s1) /\ lang (Star r) s2.
Proof.
  intro H. remember (Star r) as q eqn:Eq. remember (c :: s) as w eqn:Ew.
  revert c s Ew. induction H; intros; try discriminate.
  injection Eq as ->.
  destruct s1 as [|a s1].
  - simpl in Ew. apply IHlang2; auto.
  - simpl in Ew. injection Ew as -> <-. exists s1, s2. auto.
Qed.

Lemma deriv_lang r : forall c s, lang (deriv c r) s <-> lang r (c :: s).
Proof.
  induction r; intros c s; simpl.
  - split; intro H; destruct (lang_void_inv H) || inversion H.
  - split; intro H; [destruct (lang_void_inv H) | apply lang_eps_inv in H; discriminate].
  - destruct (in_class ranges c) eqn:E; split; intro H.
    + apply lang_eps_inv in H as ->. constructor; auto.
    + apply lang_class_inv in H as (c' & E' & _). injection E' as -> ->. constructor.
    + destruct (lang_void_inv H).
    + apply lang_class_inv in H as (c' & E' & Hc). injection E' as -> ->. congruence.
  - split.
    + intro H. destruct (nullable r1) eqn:N.
      * apply lang_alt_inv in H as [H|H].
        -- apply lang_cat_inv in H as (s1 & s2 & -> & H1 & H2).
           apply IHr1 in H1. apply lang_cat_cons; auto.
        -- apply IHr2 in H. apply nullable_lang in N.
           apply (LCat (s1 := []) N H).
      * apply lang_cat_inv in H as (s1 & s2 & -> & H1 & H2).
        apply IHr1 in H1. apply lang_cat_cons; auto.
    + intro H. apply lang_cat_inv in H as (s1 & s2 & E & H1 & H2).
      destruct s1 as [|a s1]; simpl in E.
      * subst s2. apply nullable_lang in H1. rewrite H1.
        apply LAltR. apply IHr2; auto.
      * injection E as <- ->. apply IHr1 in H1.
        destruct (nullable r1); [apply LAltL|]; constructor; auto.
  - split; intro H; apply lang_alt_inv in H as [H|H].
    + apply LAltL, IHr1; auto.
    + apply LAltR, IHr2; auto.
    + apply LAltL, IHr1; auto.
    + apply LAltR, IHr2; auto.
  - split.
    + intro H. apply lang_cat_inv in H as (s1 & s2 & -> & H1 & H2).
      apply IHr in H1. apply (LStarApp H1 H2).
    + intro H. apply star_cons in H as (s1 & s2 & -> & H1 & H2).
      constructor; auto. apply IHr; auto.
Qed.

Lemma MatchString_lang s : forall r,
  MatchString r s = true <-> lang r (list_ascii_of_string s).
Proof.
  induction s as [|c s IH]; intro r; simpl.
  - apply nullable_lang.
  - rewrite IH. apply deriv_lang.
Qed.

Lemma lang_star_class ranges s :
  lang (Star (Class ranges)) s <-> Forall (fun c => in_class ranges c = true) s.
Proof.
  split.
  - intro H. remember (Star (Class ranges)) as q eqn:Eq.
    induction H; try discriminate; auto.
    injection Eq as ->. inversion H; subst. simpl. constructor; auto.
  - induction 1 as [|c s Hc _ IH].
    + constructor.
    + change (c :: s) with ([c] ++ s). constructor; auto. constructor; auto.
Qed.

End RegexpFacts.

Section ValidationFacts.
Import Regexp RegexpSem Validate.

Lemma code_inj c c' : code c = code c' -> c = c'.
Proof.
  unfold code. intro H. apply N2Z.inj in H.
  rewrite <- (ascii_N_embedding c), <- (ascii_N_embedding c'), H. reflexivity.
Qed.

Lemma hyphen_between c : between "-" "-" c = Spec.hyphen c.
Proof.
  unfold between, Spec.hyphen. change (code "-") with 45.
  destruct (Ascii.eqb_spec c "-") as [->|N].
  - reflexivity.
  - apply andb_false_iff.
    destruct (Z.eq_dec (code c) 45) as [E|E].
    + exfalso. apply N. apply code_inj. exact E.
    + destruct (Z.leb_spec 45 (code c)); auto. right. apply Z.leb_gt. lia.
Qed.

Lemma in_class_lower_digit c : in_class lower_digit c = Spec.lowerAlnum c.
Proof. unfold in_class, lower_digit, Spec.lowerAlnum. simpl. rewrite orb_false_r. reflexivity. Qed.

Lemma in_class_label c :
  in_class (("-", "-")%char :: lower_digit) c = Spec.lowerAlnum c || Spec.hyphen c.
Proof.
  unfold in_class. simpl. rewrite orb_false_r, hyphen_between.
  unfold Spec.lowerAlnum. rewrite orb_comm. reflexivity.
Qed.

Lemma lowerAlnum_not_hyphen c : Spec.lowerAlnum c = true -> Spec.hyphen c = false.
Proof.
  unfold Spec.hyphen.
  destruct (Ascii.eqb_spec c "-") as [->|];
    [intro H; vm_compute in H; discriminate | reflexivity].
Qed.

Lemma label_ascii c : Spec.lowerAlnum c || Spec.hyphen c = true -> code c < 128.
Proof.
  unfold Spec.lowerAlnum, Spec.hyphen, between.
  change (code "a") with 97. change (code "z") with 122.
  change (code "0") with 48. change (code "9") with 57.
  destruct (Ascii.eqb_spec c "-") as [->|].
  - intros _. vm_compute. reflexivity.
  - rewrite orb_false_r. intro H.
    apply orb_true_iff in H as [H|H]; apply andb_true_iff in H as [_ H];
      apply Z.leb_le in H; lia.
Qed.

(** The words matched by the label pattern. *)
Lemma dnsLabel_lang cs :
  lang dnsLabelRegex cs <->
  exists first rest,
    cs = first :: rest /\ Spec.lowerAlnum first = true /\
    (rest = [] \/
     exists mid final,
       rest = mid ++ [final] /\
       Forall (fun c => Spec.lowerAlnum c || Spec.hyphen c = true) mid /\
       Spec.lowerAlnum final = true).
Proof.
  unfold dnsLabelRegex, Opt. split.
  - intro H. apply lang_cat_inv in H as (s1 & s2 & -> & H1 & H2).
    apply lang_class_inv in H1 as (first & -> & Hf).
    rewrite in_class_lower_digit in Hf.
    exists first, s2. split; [reflexivity|]. split; [exact Hf|].
    apply lang_alt_inv in H2 as [H2|H2].
    + right. apply lang_cat_inv in H2 as (mid & t & -> & Hm & Ht).
      apply lang_class_inv in Ht as (final & -> & Hl).
      rewrite in_class_lower_digit in Hl.
      exists mid, final. split; [reflexivity|]. split; [|exact Hl].
      apply lang_star_class in Hm.
      eapply Forall_impl; [|exact Hm]. intros a Ha. rewrite <- in_class_label. exact Ha.
    + left. apply lang_eps_inv in H2. exact H2.
  - intros (first & rest & -> & Hf & Hr).
    apply (LCat (s1 := [first])).
    + constructor. rewrite in_class_lower_digit. exact Hf.
    + destruct Hr as [->|(mid & final & -> & Hm & Hl)].
      * apply LAltR. constructor.
      * apply LAltL. constructor.
        -- apply lang_star_class. eapply Forall_impl; [|exact Hm].
           intros a Ha. rewrite in_class_label. exact Ha.
        -- constructor. rewrite in_class_lower_digit. exact Hl.
Qed.

Lemma ascii_characters cs :
  forallb (fun c => Spec.lowerAlnum c || Spec.hyphen c) cs = true ->
  filter (fun c => negb ((128 <=? code c) && (code c <=? 191))) cs = cs.
Proof.
  induction cs as [|c cs IH]; simpl; auto.
  intro H. apply andb_true_iff in H as [Hc H].
  apply label_ascii in Hc.
  replace (128 <=? code c) with false by (symmetry; apply Z.leb_gt; lia).
  simpl. rewrite IH; auto.
Qed.

Lemma labelShape_lang cs : labelShape cs = true <-> lang dnsLabelRegex cs.
Proof.
  rewrite dnsLabel_lang. split.
  - destruct cs as [|first rest]; [discriminate|].
    unfold labelShape. intro H.
    apply andb_true_iff in H as [H Hl]. apply andb_true_iff in H as [Ha Hf].
    exists first, rest. split; [reflexivity|].
    change (forallb _ (first :: rest))
      with ((Spec.lowerAlnum first || Spec.hyphen first)
            && forallb (fun c => Spec.lowerAlnum c || Spec.hyphen c) rest) in Ha.
    apply andb_true_iff in Ha as [Ha1 Ha2].
    apply negb_true_iff in Hf. rewrite Hf, orb_false_r in Ha1.
    split; [exact Ha1|].
    destruct rest as [|r0 rest0]; [left; reflexivity|]. right.
    destruct (@exists_last _ (r0 :: rest0)) as (mid & final & E); [discriminate|].
    rewrite E in *. clear E r0 rest0.
    exists mid, final. split; [reflexivity|].
    rewrite forallb_app in Ha2. apply andb_true_iff in Ha2 as [Hm Hfin].
    split; [apply Forall_forall; intros x Hx; rewrite forallb_forall in Hm; auto|].
    change (first :: mid ++ [final]) with ((first :: mid) ++ [final]) in Hl.
    rewrite last_last in Hl. apply negb_true_iff in Hl.
    simpl in Hfin. rewrite Hl, orb_false_r, andb_true_r in Hfin. exact Hfin.
  - intros (first & rest & -> & Hf & Hr). unfold labelShape.
    pose proof (lowerAlnum_not_hyphen _ Hf) as Nf.
    destruct Hr as [->|(mid & final & -> & Hm & Hl)].
    + simpl. rewrite Hf, Nf. reflexivity.
    + pose proof (lowerAlnum_not_hyphen _ Hl) as Nl.
      change (first :: mid ++ [final]) with ((first :: mid) ++ [final]).
      rewrite last_last, forallb_app, Nf, Nl. simpl. rewrite Hf, Hl. simpl.
      repeat rewrite andb_true_r.
      apply forallb_forall. rewrite Forall_forall in Hm. exact Hm.
Qed.

Lemma len_characters s :
  labelShape (list_ascii_of_string s) = true -> Spec.characters s = len s.
Proof.
  intro H. unfold Spec.characters, len.
  rewrite ascii_characters.
  - rewrite <- (string_of_list_ascii_of_string s) at 2.
    generalize (list_ascii_of_string s). intro l. f_equal.
    induction l; simpl; auto.
  - destruct (list_ascii_of_string s); [discriminate|].
    unfold labelShape in H. apply andb_true_iff in H as [H _].
    apply andb_true_iff in H as [H _]. exact H.
Qed.

Lemma dns1123Label_shape s :
  Spec.dns1123Label s = labelShape (list_ascii_of_string s) && (Spec.characters s <=? 253).
Proof.
  unfold Spec.dns1123Label, labelShape.
  destruct (list_ascii_of_string s); reflexivity.
Qed.

Lemma len_zero s : (len s =? 0) = true -> list_ascii_of_string s = [].
Proof. destruct s; [reflexivity|]. unfold len. simpl String.length. intro H. apply Z.eqb_eq in H. lia. Qed.

(** Which names the label check lets through. *)
Lemma labelCheck_dns1123 s :
  (negb (len s =? 0) && negb ((253 <? len s) || negb (MatchString dnsLabelRegex s)))
  = Spec.dns1123Label s.
Proof.
  rewrite dns1123Label_shape.
  destruct (labelShape (list_ascii_of_string s)) eqn:Sh.
  - rewrite (len_characters _ Sh).
    pose proof (proj1 (labelShape_lang _) Sh) as L.
    apply MatchString_lang in L. rewrite L. simpl.
    rewrite orb_false_r.
    destruct (len s =? 0) eqn:Z0.
    + apply len_zero in Z0. rewrite Z0 in Sh. discriminate.
    + simpl. rewrite Z.ltb_antisym, negb_involutive. reflexivity.
  - simpl. destruct (MatchString dnsLabelRegex s) eqn:Ms.
    + apply MatchString_lang, labelShape_lang in Ms. congruence.
    + simpl. rewrite orb_true_r, andb_false_r. reflexivity.
Qed.

Lemma validateNamespace_dns1123 s :
  validateNamespace s = None <-> Spec.dns1123Label s = true.
Proof.
  rewrite <- labelCheck_dns1123. unfold validateNamespace.
  destruct (len s =? 0); simpl; [split; discriminate|].
  destruct ((253 <? len s) || negb (MatchString dnsLabelRegex s)); simpl;
    split; auto; discriminate.
Qed.

Lemma validatePodName_dns1123 s :
  validatePodName s = None <-> Spec.dns1123Label s = true.
Proof.
  rewrite <- labelCheck_dns1123. unfold validatePodName.
  destruct (len s =? 0); simpl; [split; discriminate|].
  destruct ((253 <? len s) || negb (MatchString dnsLabelRegex s)); simpl;
    split; auto; discriminate.
Qed.

End ValidationFacts.

Section TranscriptFacts.
Import Transcript.

Lemma lastN_short (A : Type) n (l : list A) : (List.length l <= n)%nat -> Spec.lastN n l = l.
Proof. intro H. unfold Spec.lastN. replace (List.length l - n)%nat with 0%nat by lia. reflexivity. Qed.

Lemma lastN_length (A : Type) n (l : list A) :
  List.length (Spec.lastN n l) = Nat.min n (List.length l).
Proof. unfold Spec.lastN. rewrite length_skipn. lia. Qed.

(** Dropping old elements early or late leaves the same window. *)
Lemma lastN_app (A : Type) n (l m : list A) :
  Spec.lastN n (Spec.lastN n l ++ m) = Spec.lastN n (l ++ m).
Proof.
  destruct (Nat.le_gt_cases (List.length l) n) as [H|H].
  - rewrite (lastN_short l H). reflexivity.
  - unfold Spec.lastN at 1 3.
    rewrite !length_app, lastN_length.
    replace (Nat.min n (List.length l)) with n by lia.
    unfold Spec.lastN.
    replace (List.length l + List.length m - n)%nat
      with ((n + List.length m - n) + (List.length l - n))%nat by lia.
    rewrite <- skipn_skipn. f_equal.
    rewrite skipn_app.
    replace (List.length l - n - List.length l)%nat with 0%nat by lia.
    reflexivity.
Qed.

Lemma record_lastN r t : record r t = Spec.lastN capacity (t ++ [r]).
Proof.
  unfold record. destruct (Nat.ltb_spec capacity (List.length (t ++ [r]))) as [H|H].
  - reflexivity.
  - symmetry. apply lastN_short. exact H.
Qed.

Lemma record_all_lastN rs : forall t,
  (List.length t <= capacity)%nat -> record_all rs t = Spec.lastN capacity (t ++ rs).
Proof.
  induction rs as [|r rs IH]; intros t H; simpl.
  - rewrite app_nil_r. symmetry. apply lastN_short. exact H.
  - unfold record_all in *. simpl. rewrite IH.
    + rewrite record_lastN, lastN_app, <- app_assoc. reflexivity.
    + rewrite record_lastN, lastN_length. lia.
Qed.

End TranscriptFacts.

(** C6.  Appending to the transcript adds the envelope at the end and keeps
    the last 200: [record] is the 200-element window of the extended
    sequence; the buffer never holds more than 200 envelopes, whatever is
    appended; and appending any 205 envelopes to the empty buffer leaves
    exactly the last 200 of them, in insertion order (the five oldest are
    gone). *)
Theorem transcript_sliding_window :
  (forall r t, Transcript.record r t = Spec.lastN 200 (t ++ [r]))
  /\ (forall r t, (List.length (Transcript.record r t) <= 200)%nat)
  /\ (forall rs,
        Transcript.record_all rs [] = Spec.lastN 200 rs
        /\ (List.length (Transcript.record_all rs []) <= 200)%nat)
  /\ (forall rs,
        List.length rs = 205%nat ->
        Transcript.record_all rs [] = skipn 5 rs
        /\ List.length (Transcript.record_all rs []) = 200%nat).
Proof.
  split; [|split; [|split]].
  - intros. apply record_lastN.
  - intros. rewrite record_lastN, lastN_length. unfold Transcript.capacity. lia.
  - intros rs. rewrite record_all_lastN by (simpl; lia). simpl.
    split; [reflexivity|]. rewrite lastN_length. unfold Transcript.capacity. lia.
  - intros rs H. rewrite record_all_lastN by (simpl; lia). simpl.
    unfold Spec.lastN, Transcript.capacity. rewrite H. simpl Nat.sub.
    split; [reflexivity|]. rewrite length_skipn. lia.
Qed.

Lemma transcript_sliding_window_witness :
  List.length (map envelope (seq 0 205)) = 205%nat
  /\ Transcript.record_all (map envelope (seq 0 205)) [] = map envelope (seq 5 200).
Proof.
  split; [reflexivity|].
  transitivity (skipn 5 (map envelope (seq 0 205))); [|reflexivity].
  apply (proj1 (proj2 (proj2 (proj2 transcript_sliding_window)) (map envelope (seq 0 205)) eq_refl)).
Defined.


Section ServiceFacts.
Import Validate App Service.
Variable env : Env.

Lemma withContext_ok args contextName :
  Spec.contextOk contextName = true ->
  withContext args contextName
  = Ok (if String.eqb contextName "" then args else "--context" :: contextName :: args).
Proof.
  unfold Spec.contextOk, withContext.
  destruct (validateContextName contextName); [discriminate|].
  destruct (String.eqb contextName ""); reflexivity.
Qed.

Lemma withContext_bad args contextName :
  Spec.contextOk contextName = false ->
  withContext args contextName = Err "invalid context name".
Proof.
  unfold Spec.contextOk, withContext, validateContextName.
  destruct (String.eqb contextName ""); [discriminate|].
  destruct (HasPrefix contextName "-"); [reflexivity|].
  destruct ((253 <? len contextName) || negb (Regexp.MatchString Regexp.safeContextRegex contextName));
    [reflexivity|discriminate].
Qed.

Lemma label_ok s : Spec.dns1123Label s = true -> validateNamespace s = None /\ validatePodName s = None.
Proof. intro H. split; [apply validateNamespace_dns1123 | apply validatePodName_dns1123]; exact H. Qed.

(** A call whose inputs pass validation runs one process with the
    expected arguments and records the envelope it returns. *)
Lemma invoke_valid c a :
  Spec.validCall c = true ->
  invoke env c a
  = (finish env c (processOf env c a),
     mkApp (Transcript.record (finish env c (processOf env c a)) (transcript a))
           (spawned a ++ [(Spec.expectedArgs c, Spec.timeoutOf c)])).
Proof.
  intro V. unfold processOf, Spec.expectedArgs.
  destruct c; simpl in *.
  - reflexivity.
  - reflexivity.
  - unfold SetContext. unfold Spec.contextOk in V.
    destruct (validateContextName name); [discriminate|]. reflexivity.
  - unfold ListNamespaces. rewrite (withContext_ok _ _ V).
    destruct (String.eqb contextName ""); reflexivity.
  - apply andb_true_iff in V as [V1 V2].
    unfold ListPods. rewrite (proj1 (label_ok _ V1)), (withContext_ok _ _ V2).
    destruct (String.eqb contextName ""); reflexivity.
  - apply andb_true_iff in V as [V V3]. apply andb_true_iff in V as [V1 V2].
    unfold DeletePod.
    rewrite (proj1 (label_ok _ V1)), (proj2 (label_ok _ V2)), (withContext_ok _ _ V3).
    destruct (String.eqb contextName ""); reflexivity.
  - apply andb_true_iff in V as [V V3]. apply andb_true_iff in V as [V1 V2].
    unfold GetPodLogs.
    rewrite (proj1 (label_ok _ V1)), (proj2 (label_ok _ V2)), (withContext_ok _ _ V3).
    destruct (String.eqb contextName ""); reflexivity.
  - apply andb_true_iff in V as [V V3]. apply andb_true_iff in V as [V1 V2].
    unfold DescribePod.
    rewrite (proj1 (label_ok _ V1)), (proj2 (label_ok _ V2)), (withContext_ok _ _ V3).
    destruct (String.eqb contextName ""); reflexivity.
Qed.

Lemma label_bad s :
  Spec.dns1123Label s = false ->
  (exists e, validateNamespace s = Some e) /\ (exists e, validatePodName s = Some e).
Proof.
  intro H. split.
  - destruct (validateNamespace s) eqn:E; eauto.
    apply validateNamespace_dns1123 in E. congruence.
  - destruct (validatePodName s) eqn:E; eauto.
    apply validatePodName_dns1123 in E. congruence.
Qed.

(** A call rejected by validation starts no process and records nothing. *)
Lemma invoke_invalid c a :
  Spec.validCall c = false ->
  exists args err,
    invoke env c a = (invalidResult args err, a).
Proof.
  intro V. destruct c; simpl in *; try discriminate.
  - unfold SetContext. unfold Spec.contextOk in V.
    destruct (validateContextName name); [do 2 eexists; reflexivity|discriminate].
  - unfold ListNamespaces. rewrite (withContext_bad _ _ V). do 2 eexists; reflexivity.
  - unfold ListPods.
    destruct (Spec.dns1123Label namespace) eqn:V1.
    + rewrite (proj1 (label_ok _ V1)). simpl in V. rewrite (withContext_bad _ _ V). do 2 eexists; reflexivity.
    + destruct (proj1 (label_bad _ V1)) as (e & ->). do 2 eexists; reflexivity.
  - unfold DeletePod.
    destruct (Spec.dns1123Label namespace) eqn:V1.
    + rewrite (proj1 (label_ok _ V1)).
      destruct (Spec.dns1123Label name) eqn:V2.
      * rewrite (proj2 (label_ok _ V2)). simpl in V. rewrite (withContext_bad _ _ V). do 2 eexists; reflexivity.
      * destruct (proj2 (label_bad _ V2)) as (e & ->). do 2 eexists; reflexivity.
    + destruct (proj1 (label_bad _ V1)) as (e & ->). do 2 eexists; reflexivity.
  - unfold GetPodLogs.
    destruct (Spec.dns1123Label namespace) eqn:V1.
    + rewrite (proj1 (label_ok _ V1)).
      destruct (Spec.dns1123Label name) eqn:V2.
      * rewrite (proj2 (label_ok _ V2)). simpl in V. rewrite (withContext_bad _ _ V). do 2 eexists; reflexivity.
      * destruct (proj2 (label_bad _ V2)) as (e & ->). do 2 eexists; reflexivity.
    + destruct (proj1 (label_bad _ V1)) as (e & ->). do 2 eexists; reflexivity.
  - unfold DescribePod.
    destruct (Spec.dns1123Label namespace) eqn:V1.
    + rewrite (proj1 (label_ok _ V1)).
      destruct (Spec.dns1123Label name) eqn:V2.
      * rewrite (proj2 (label_ok _ V2)). simpl in V. rewrite (withContext_bad _ _ V). do 2 eexists; reflexivity.
      * destruct (proj2 (label_bad _ V2)) as (e & ->). do 2 eexists; reflexivity.
    + destruct (proj1 (label_bad _ V1)) as (e & ->). do 2 eexists; reflexivity.
Qed.

End ServiceFacts.

Section RecordedFacts.
Import App Service.

Lemma record_ends_with r t : exists older, Transcript.record r t = older ++ [r].
Proof.
  rewrite record_lastN. unfold Spec.lastN.
  exists (skipn (List.length (t ++ [r]) - Transcript.capacity) t).
  rewrite skipn_app.
  replace (List.length (t ++ [r]) - Transcript.capacity - List.length t)%nat with 0%nat
    by (rewrite length_app; unfold Transcript.capacity; simpl List.length; lia).
  reflexivity.
Qed.

(** No sequence of calls makes the transcript longer than its capacity. *)
Lemma transcript_bounded_by_calls (env : Env) cs : forall a,
  (List.length (transcript a) <= Transcript.capacity)%nat ->
  (List.length (transcript (invokeAll env cs a)) <= Transcript.capacity)%nat.
Proof.
  induction cs as [|c cs IH]; intros a H; simpl; [exact H|].
  apply IH. destruct (Spec.validCall c) eqn:V.
  - rewrite (invoke_valid env c a V). simpl.
    rewrite record_lastN, lastN_length. lia.
  - destruct (invoke_invalid env c a V) as (args & err & ->). exact H.
Qed.

End RecordedFacts.

(** C1 does not hold as stated: [DeletePod] with the namespace
    ["Kube_System"] returns the envelope of a validation failure (exit code
    -1) and leaves the transcript empty; the envelope is not recorded. *)
Lemma rejected_call_not_recorded :
  let ra := App.DeletePod (printing "") "" "Kube_System" "web-0" App.NewApp in
  ExitCode (fst ra) = -1
  /\ Stderr (fst ra) = "invalid namespace name"
  /\ App.transcript (snd ra) = []
  /\ ~ In (fst ra) (App.transcript (snd ra)).
Proof.
  vm_compute. repeat split; auto.
Qed.

(** C1, amended.  Every invocation of a command service operation whose
    inputs pass validation appends the envelope it returns to the transcript
    before it returns (the envelope is the last element of the buffer).  An
    invocation rejected by validation returns an envelope with exit code -1
    and leaves the state of the application, transcript included, as it
    was. *)
Theorem validated_invocation_recorded (env : Env) (c : App.Call) (a : App.App) :
  let ra := App.invoke env c a in
  (Spec.validCall c = true ->
     App.transcript (snd ra) = Transcript.record (fst ra) (App.transcript a)
     /\ exists older, App.transcript (snd ra) = older ++ [fst ra])
  /\ (Spec.validCall c = false ->
        snd ra = a /\ ExitCode (fst ra) = -1).
Proof.
  cbv zeta. split; intro V.
  - rewrite (invoke_valid env c a V). simpl.
    split; [reflexivity|]. apply record_ends_with.
  - destruct (invoke_invalid env c a V) as (args & err & ->). simpl. auto.
Qed.

Lemma validated_invocation_recorded_witness :
  let ra := App.invoke (printing "") (App.CallDeletePod "kind-dev" "default" "web-0") App.NewApp in
  Spec.validCall (App.CallDeletePod "kind-dev" "default" "web-0") = true
  /\ exists older, App.transcript (snd ra) = older ++ [fst ra].
Proof.
  split; [vm_compute; reflexivity|].
  apply (proj1 (validated_invocation_recorded (printing "") (App.CallDeletePod "kind-dev" "default" "web-0") App.NewApp)).
  vm_compute; reflexivity.
Defined.


(** C2.  When the namespace or the pod name violates the DNS-1123 label
    rule, [DeletePod], [GetPodLogs] and [DescribePod] return an envelope with
    exit code -1, empty stdout and the message of the failing validator as
    stderr, and no process is started (the state is unchanged). *)
Theorem invalid_label_rejected (env : Env) (contextName namespace name : string) (tail : Z)
        (a : App.App) :
  Spec.dns1123Label namespace = false \/ Spec.dns1123Label name = false ->
  rejectedWith (firstError namespace name) a (App.DeletePod env contextName namespace name a)
  /\ rejectedWith (firstError namespace name) a
                  (App.GetPodLogs env contextName namespace name tail a)
  /\ rejectedWith (firstError namespace name) a (App.DescribePod env contextName namespace name a).
Proof.
  intro H. unfold rejectedWith, firstError, App.DeletePod, App.GetPodLogs, App.DescribePod.
  destruct (Validate.validateNamespace namespace) as [e|] eqn:E1.
  - simpl. repeat split; reflexivity.
  - destruct (Validate.validatePodName name) as [e|] eqn:E2.
    + simpl. repeat split; reflexivity.
    + apply validateNamespace_dns1123 in E1. apply validatePodName_dns1123 in E2.
      destruct H; congruence.
Qed.

Lemma invalid_label_rejected_witness :
  Spec.dns1123Label "-kube" = false
  /\ rejectedWith (Some "invalid namespace name") App.NewApp
                  (App.DeletePod (printing "") "kind-dev" "-kube" "web-0" App.NewApp).
Proof.
  split; [vm_compute; reflexivity|].
  apply (invalid_label_rejected (printing "") "kind-dev" "-kube" "web-0" 0 App.NewApp).
  left. vm_compute. reflexivity.
Defined.

(** C5.  For inputs that pass validation, every operation starts exactly one
    process whose argument vector is the fixed sequence of the operation
    (for listing pods: get pods -n <namespace> -o json), preceded by
    --context <name> if and only if a non-empty context name was supplied.
    The context is the one the operation is scoped to: [ListContexts],
    [GetCurrentContext] and [SetContext] have none ([SetContext] passes its
    name as the operand of use-context). *)
Theorem argument_vector_exact (env : Env) (c : App.Call) (a : App.App) :
  Spec.validCall c = true ->
  App.spawned (snd (App.invoke env c a))
  = App.spawned a ++ [(Spec.expectedArgs c, Spec.timeoutOf c)]
  /\ (Spec.contextOf c = "" -> Spec.expectedArgs c = Spec.fixedArgs c)
  /\ (Spec.contextOf c <> "" ->
      Spec.expectedArgs c = "--context" :: Spec.contextOf c :: Spec.fixedArgs c).
Proof.
  intro V. rewrite (invoke_valid env c a V). simpl.
  split; [reflexivity|]. unfold Spec.expectedArgs.
  destruct (String.eqb_spec (Spec.contextOf c) ""); split; intros; congruence.
Qed.

Lemma argument_vector_exact_witness :
  App.spawned (snd (App.invoke (printing "") (App.CallListPods "" "default") App.NewApp))
  = [(["get"; "pods"; "-n"; "default"; "-o"; "json"], 15000000000)]
  /\ App.spawned (snd (App.invoke (printing "") (App.CallListPods "kind-dev" "default") App.NewApp))
  = [(["--context"; "kind-dev"; "get"; "pods"; "-n"; "default"; "-o"; "json"], 15000000000)].
Proof.
  split.
  - apply (proj1 (argument_vector_exact (printing "") (App.CallListPods "" "default")
                    App.NewApp eq_refl)).
  - apply (proj1 (argument_vector_exact (printing "") (App.CallListPods "kind-dev" "default")
                    App.NewApp eq_refl)).
Defined.

(** C9.  [GetPodLogs] with a tail count of zero or below behaves exactly as
    with the tail count 100, and for valid inputs the argument vector ends
    with --tail=100. *)
Theorem tail_defaults_to_100 (env : Env) (contextName namespace name : string) (tail : Z)
        (a : App.App) :
  tail <= 0 ->
  App.GetPodLogs env contextName namespace name tail a
  = App.GetPodLogs env contextName namespace name 100 a
  /\ (Spec.validCall (App.CallGetPodLogs contextName namespace name tail) = true ->
      App.spawned (snd (App.GetPodLogs env contextName namespace name tail a))
      = App.spawned a
        ++ [((if String.eqb contextName "" then [] else ["--context"; contextName])
               ++ ["logs"; name; "-n"; namespace; "--tail=100"],
             30 * Duration.Second)]).
Proof.
  intro H. split.
  - unfold App.GetPodLogs. apply Z.leb_le in H. rewrite H. reflexivity.
  - intro V.
    change (App.GetPodLogs env contextName namespace name tail a)
      with (App.invoke env (App.CallGetPodLogs contextName namespace name tail) a).
    rewrite (invoke_valid env _ a V). simpl.
    unfold Spec.expectedArgs. simpl.
    apply Z.leb_le in H. rewrite H.
    destruct (String.eqb contextName ""); reflexivity.
Qed.

Lemma tail_defaults_to_100_witness :
  -3 <= 0
  /\ App.spawned (snd (App.GetPodLogs (printing "") "" "default" "web-0" (-3) App.NewApp))
     = [(["logs"; "web-0"; "-n"; "default"; "--tail=100"], 30000000000)].
Proof.
  split; [lia|].
  apply (proj2 (@tail_defaults_to_100 (printing "") "" "default" "web-0" (-3) App.NewApp
                  ltac:(lia)) eq_refl).
Defined.

(** The scanner on a few texts: what it accepts, with the value it builds,
    and what it rejects. *)
Example scanner_accepts :
  Json.parse "null" = Some Json.JNull
  /\ Json.parse " {} " = Some (Json.JObject [])
  /\ Json.parse "[1, -2.5e+10, true]"
     = Some (Json.JArray [Json.JNumber "1"; Json.JNumber "-2.5e+10"; Json.JBool true])
  /\ Json.parse (jsonText "{'items':[{'metadata':{'name':'default'}}]}")
     = Some (Json.JObject
               [("items",
                 Json.JArray
                   [Json.JObject
                      [("metadata", Json.JObject [("name", Json.JString "default")])]])]).
Proof. vm_compute. repeat split; reflexivity. Qed.

Example scanner_rejects :
  map Json.parse [""; "-"; "01"; "1 2"; "[1,]"; "tru"; "nulll"; "1."; jsonText "{'a':1,}";
                  jsonText "{'a' 1}"; "{1:1}"; jsonText "['\x']"; jsonText "{'items': ["]
  = repeat None 13.
Proof. vm_compute. reflexivity. Qed.

(** The namespace and context decoders on a list: empty names are skipped,
    the order is kept, keys are matched without regard to case. *)
Example names_decoded :
  Parse.parseNamespaces (printing "")
    (jsonText "{'items':[{'metadata':{'name':'default'}},{'metadata':{}},{'Metadata':{'NAME':'kube-system'}}]}")
  = Ok [mkNamespace "default"; mkNamespace "kube-system"]
  /\ Parse.parseContexts (printing "")
       (jsonText "{'contexts':[{'name':'kind-dev'},{'name':''},{'name':'prod','context':{}}]}")
     = Ok ["kind-dev"; "prod"].
Proof. vm_compute. split; reflexivity. Qed.

Section DecodeFacts.
Import Json Into Parse.
Variable env : Env.

Lemma Unmarshal_malformed (T : Type) (d : decoder T) (zero : T) data :
  parse data = None -> Unmarshal env d zero data = Err (errorText env SyntaxError data).
Proof. unfold Unmarshal. intros ->. reflexivity. Qed.

Lemma decoded_parse_error (A : Type) (parser : string -> result A) (wrap : A -> Parsed) p msg :
  ExitCode p = 0 -> parser (Stdout p) = Err msg ->
  App.decoded parser wrap p = App.appendParseError p msg.
Proof. unfold App.decoded. intros -> ->. reflexivity. Qed.

(** Every list decoder reports malformed text as an error. *)
Lemma list_parser_malformed data :
  parse data = None ->
  parseContexts env data = Err (errorText env SyntaxError data)
  /\ parseNamespaces env data = Err (errorText env SyntaxError data)
  /\ parsePods env data = Err (errorText env SyntaxError data).
Proof.
  intro H. unfold parseContexts, parseNamespaces, parsePods.
  rewrite !Unmarshal_malformed by exact H. auto.
Qed.

(** The field a key names in a struct of one field. *)
Lemma lookup_single (A : Type) fieldName (d : A) key :
  Fields.lookup [(fieldName, d)] key = if Spec.names fieldName key then Some d else None.
Proof.
  unfold Fields.lookup, Spec.names. simpl.
  destruct (String.eqb fieldName key); [reflexivity|]. simpl.
  destruct (String.eqb (Fields.foldName fieldName) (Fields.foldName key)); reflexivity.
Qed.

(** A struct of one list field stays empty over members that do not name
    the field or give it no items. *)
Lemma members_empty (T : Type) fieldName (zero : T) (elem : decoder T) ms :
  forallb (fun m => negb (Spec.names fieldName (Unquote.unquote (fst m)))
                    || Spec.noItems (snd m)) ms = true ->
  members [(fieldName, Slice zero elem)] ms [] = Some [].
Proof.
  induction ms as [|[key v] ms IH]; cbn [members forallb fst snd]; [reflexivity|].
  intro H. apply andb_true_iff in H as [Hk Hms]. rewrite lookup_single.
  destruct (Spec.names fieldName (Unquote.unquote key)); cbn [negb orb] in Hk.
  - destruct v as [| | | |vs|]; try discriminate Hk.
    + cbn [Slice]. apply IH. exact Hms.
    + destruct vs; [|discriminate Hk]. cbn [Slice elements]. apply IH. exact Hms.
  - apply IH. exact Hms.
Qed.

Lemma Struct_empty (T : Type) fieldName (zero : T) (elem : decoder T) v :
  Spec.emptyList fieldName v = true -> Struct [(fieldName, Slice zero elem)] v [] = Some [].
Proof.
  destruct v; simpl; try discriminate.
  - reflexivity.
  - apply members_empty.
Qed.

(** A member that names the list field with a value of another kind makes
    the whole object an error, whatever the other members are. *)
Lemma members_wrong (T : Type) fieldName (zero : T) (elem : decoder T) ms :
  existsb (fun m => Spec.names fieldName (Unquote.unquote (fst m))
                    && Spec.notAList (snd m)) ms = true ->
  forall cur, members [(fieldName, Slice zero elem)] ms cur = None.
Proof.
  induction ms as [|[key v] ms IH]; cbn [members existsb fst snd]; [discriminate|].
  intros H cur. rewrite lookup_single.
  destruct (Spec.names fieldName (Unquote.unquote key)); cbn [andb orb] in H.
  - destruct (Spec.notAList v) eqn:N; cbn [orb] in H.
    + destruct v; try discriminate N; reflexivity.
    + destruct (Slice zero elem v cur); [apply IH; exact H | reflexivity].
  - apply IH. exact H.
Qed.

Lemma Struct_wrong (T : Type) fieldName (zero : T) (elem : decoder T) v cur :
  Spec.wrongKind fieldName v = true -> Struct [(fieldName, Slice zero elem)] v cur = None.
Proof.
  destruct v; simpl; try discriminate; try reflexivity.
  intro H. apply members_wrong. exact H.
Qed.

End DecodeFacts.

(** C7.  When the process of a list operation exits with code 0 and its
    stdout is not well-formed JSON, the envelope returned keeps exit code 0
    and the stdout as it was, its stderr is the stderr of the process followed
    (on a new line when it was not empty) by "parse error: " and the detail
    of the error, and it carries no parsed data. *)
Theorem malformed_output_keeps_exit_code (env : Env) (c : App.Call) (a : App.App) :
  Spec.isList c = true ->
  Spec.validCall c = true ->
  let p := Service.processOf env c a in
  let r := fst (App.invoke env c a) in
  ExitCode p = 0 ->
  Json.parse (Stdout p) = None ->
  ExitCode r = 0
  /\ Stdout r = Stdout p
  /\ Stderr r
     = (if String.eqb (Stderr p) "" then "" else Stderr p +++ App.newline)
         +++ "parse error: " +++ errorText env SyntaxError (Stdout p)
  /\ ParsedData r = PNil.
Proof.
  intros L V p r E M. subst r. rewrite (invoke_valid env c a V). cbn [fst].
  change (Service.processOf env c a) with p.
  assert (PD : ParsedData p = PNil) by reflexivity.
  clearbody p.
  destruct (list_parser_malformed env _ M) as (Hc & Hn & Hp).
  assert (R : Service.finish env c p
              = App.appendParseError p (errorText env SyntaxError (Stdout p))).
  { destruct c; try discriminate; simpl; apply decoded_parse_error; assumption. }
  rewrite R. unfold App.appendParseError. cbn [ExitCode Stdout Stderr ParsedData].
  split; [exact E|]. split; [reflexivity|]. split; [|exact PD].
  destruct (String.eqb_spec (Stderr p) "") as [->|]; reflexivity.
Qed.

Lemma malformed_output_keeps_exit_code_witness :
  let r := fst (App.invoke (printing (jsonText "{'items': [")) (App.CallListPods "" "default") App.NewApp) in
  ExitCode r = 0
  /\ Stdout r = (jsonText "{'items': [")
  /\ Stderr r = "parse error: invalid character"
  /\ ParsedData r = PNil.
Proof.
  apply (@malformed_output_keeps_exit_code (printing (jsonText "{'items': ["))
           (App.CallListPods "" "default") App.NewApp eq_refl eq_refl eq_refl eq_refl).
Defined.

(** C8.  The runner reads the context's error after the command has
    returned, whatever it returned: a process that exits with status 0 and
    writes nothing to stderr, with the deadline passing before the error is
    read, gets exit code 0 together with the stderr "command timed out"; a
    list operation then decodes its output as that of a success. *)
Theorem deadline_after_clean_exit :
  Runner.ctxErr (Runner.mkExecution (Runner.Finished (Runner.Exited 0) false)
                   (jsonText "{'items':[]}") "" Runner.DeadlineExceeded 15000)
  = Runner.DeadlineExceeded
  /\ Runner.Run (Runner.mkExecution (Runner.Finished (Runner.Exited 0) false)
                   (jsonText "{'items':[]}") "" Runner.DeadlineExceeded 15000)
                ["get"; "ns"; "-o"; "json"]
     = mkResult "kubectl get ns -o json" (jsonText "{'items':[]}") "command timed out" 0 15000
                PNil
  /\ fst (App.ListNamespaces
            (mkEnv (fun _ _ _ =>
                      Runner.mkExecution (Runner.Finished (Runner.Exited 0) false)
                        (jsonText "{'items':[]}") "" Runner.DeadlineExceeded 15000)
                   (now (printing "")) (parseRFC3339 (printing ""))
                   (errorText (printing "")) (TrimSpace (printing "")))
            "" App.NewApp)
     = mkResult "kubectl get ns -o json" (jsonText "{'items':[]}") "command timed out" 0 15000
                (PNamespaces []).
Proof. vm_compute. repeat split; reflexivity. Qed.

(** What the runner does guarantee once the deadline has expired: with no
    stderr text from the process the envelope's stderr is exactly
    "command timed out", with stderr text it is that text unchanged; and when
    the command did not complete on its own (the deadline interrupted it),
    the exit code is a failure: -1, or the non-zero status of the process. *)
Theorem deadline_expiry_reported (e : Runner.Execution) (args : list string) :
  Runner.ctxErr e = Runner.DeadlineExceeded ->
  let r := Runner.Run e args in
  (Runner.stderr_buf e = "" -> Stderr r = "command timed out")
  /\ (Runner.stderr_buf e <> "" -> Stderr r = Runner.stderr_buf e)
  /\ (Runner.interrupted (Runner.waited e) = true ->
      ExitCode r <> 0
      /\ (ExitCode r = -1
          \/ exists status, Runner.waited e = Runner.Finished (Runner.Exited status) true
                            /\ status <> 0 /\ ExitCode r = status)).
Proof.
  intros D r. subst r. unfold Runner.Run. simpl. rewrite D. simpl.
  split; [|split].
  - intros ->. reflexivity.
  - intro N. destruct (Runner.stderr_buf e) eqn:S; [congruence|]. reflexivity.
  - intro I. destruct (Runner.waited e) as [|ps i]; simpl in *.
    + split; [discriminate|left; reflexivity].
    + subst i. destruct ps as [status|]; simpl.
      * destruct (Z.eqb_spec status 0) as [->|N]; simpl.
        -- split; [discriminate|left; reflexivity].
        -- split; [exact N|]. right. exists status. auto.
      * split; [discriminate|left; reflexivity].
Qed.

Lemma deadline_expiry_reported_witness :
  let e := Runner.mkExecution (Runner.Finished Runner.Signaled true) "" ""
                              Runner.DeadlineExceeded 15000 in
  Stderr (Runner.Run e ["get"; "ns"; "-o"; "json"]) = "command timed out"
  /\ ExitCode (Runner.Run e ["get"; "ns"; "-o"; "json"]) <> 0.
Proof.
  pose proof (@deadline_expiry_reported
                (Runner.mkExecution (Runner.Finished Runner.Signaled true) "" ""
                                    Runner.DeadlineExceeded 15000)
                ["get"; "ns"; "-o"; "json"] eq_refl) as H.
  split.
  - apply (proj1 H). reflexivity.
  - apply (proj1 (proj2 (proj2 H) eq_refl)).
Defined.

Section StatusFacts.
Import Parse.

Lemma containerStep_status t cs :
  status (containerStep t cs)
  = match Spec.containerReason cs with Some r => r | None => status t end.
Proof.
  unfold containerStep, Spec.containerReason, Spec.nonEmpty. simpl.
  destruct (Terminated cs) as [rt|]; destruct (Waiting cs) as [rw|];
    try destruct (String.eqb rt ""); try destruct (String.eqb rw ""); reflexivity.
Qed.

Lemma fold_status l : forall t,
  status (fold_left containerStep l t)
  = match Spec.lastReason l with Some r => r | None => status t end.
Proof.
  induction l as [|cs l IH]; intro t; simpl; [reflexivity|].
  rewrite IH, containerStep_status.
  destruct (Spec.lastReason l); reflexivity.
Qed.

Lemma lastReason_final earlier final r :
  Spec.containerReason final = Some r -> Spec.lastReason (earlier ++ [final]) = Some r.
Proof.
  intro H. induction earlier as [|cs l IH]; simpl.
  - exact H.
  - rewrite IH. reflexivity.
Qed.

End StatusFacts.

(** The pod decoder on the text of a list with one crash-looping pod. *)
Example crash_loop_pod_decoded :
  Parse.parsePods (printing "")
    (jsonText "{'items':[{'metadata':{'name':'web-0'},'status':{'phase':'Running','containerStatuses':[{'ready':true,'restartCount':0,'state':{'running':{}}},{'ready':false,'restartCount':7,'state':{'waiting':{'reason':'CrashLoopBackOff'}}}]}}]}")
  = Ok [mkPod "web-0" "CrashLoopBackOff" "1/2" 7 "-" "-" false].
Proof. vm_compute. reflexivity. Qed.

(** C4.  The age formatter at 180 days less one nanosecond: [Hours] adds
    4319 and a fraction so close to one that the binary64 sum is 4320, the
    quotient by 720 is 6 and the age reads "6mo", where the truncating integer
    division of the specification gives "5mo". *)
Theorem formatAge_rounds_up_before_180_days :
  Duration.formatAge 15551999999999999 = "6mo"
  /\ Spec.ageByBuckets 15551999999999999 = "5mo"
  /\ Duration.Hours 15551999999999999 = 4320%float.
Proof. vm_compute. auto. Qed.

(** For every duration the formatter prints a number followed by the unit of
    the bucket the thresholds select, as the integer version does. *)
Lemma formatAge_bucket_unit (d : Z) :
  (exists n, Duration.formatAge d = Sprintf_d n +++ Spec.unitOf d)
  /\ (exists n, Spec.ageByBuckets d = Sprintf_d n +++ Spec.unitOf d).
Proof.
  unfold Duration.formatAge, Spec.ageByBuckets, Spec.unitOf.
  change Duration.Minute with (60 * 1000000000).
  change Duration.Hour with (3600 * 1000000000).
  change (24 * (3600 * 1000000000)) with (24 * 3600 * 1000000000).
  change (7 * 24 * (3600 * 1000000000)) with (7 * (24 * 3600 * 1000000000)).
  change (30 * 24 * (3600 * 1000000000)) with (30 * (24 * 3600 * 1000000000)).
  cbv zeta.
  destruct (d <? 60 * 1000000000); [split; eexists; reflexivity|].
  destruct (d <? 3600 * 1000000000); [split; eexists; reflexivity|].
  destruct (d <? 24 * 3600 * 1000000000); [split; eexists; reflexivity|].
  destruct (d <? 7 * (24 * 3600 * 1000000000)); [split; eexists; reflexivity|].
  destruct (d <? 30 * (24 * 3600 * 1000000000)); split; eexists; reflexivity.
Qed.

(** The five documented ages. *)
Lemma formatAge_documented_examples :
  map Duration.formatAge
      [45 * Duration.Second; 90 * Duration.Second; 25 * Duration.Hour;
       10 * 24 * Duration.Hour; 40 * 24 * Duration.Hour]
  = ["45s"; "1m"; "1d"; "1w"; "1mo"]
  /\ map Spec.ageByBuckets
         [45 * Duration.Second; 90 * Duration.Second; 25 * Duration.Hour;
          10 * 24 * Duration.Hour; 40 * 24 * Duration.Hour]
     = ["45s"; "1m"; "1d"; "1w"; "1mo"].
Proof. vm_compute. auto. Qed.

(** C10 does not hold as stated: the text [[]] is valid JSON of an unexpected
    shape, and the three decoders answer with an error; the envelope of a
    list operation then carries a parse error and no parsed data. *)
Lemma array_output_is_decode_failure :
  Json.parse "[]" = Some (Json.JArray [])
  /\ Parse.parseNamespaces (printing "[]") "[]" = Err "cannot unmarshal"
  /\ Parse.parsePods (printing "[]") "[]" = Err "cannot unmarshal"
  /\ Parse.parseContexts (printing "[]") "[]" = Err "cannot unmarshal"
  /\ (let r := fst (App.ListNamespaces (printing "[]") "" App.NewApp) in
      ExitCode r = 0 /\ ParsedData r = PNil /\ Stderr r = "parse error: cannot unmarshal").
Proof. vm_compute. repeat split; reflexivity. Qed.

(** C10, amended.  When stdout is the JSON literal null, or a JSON object in
    which every member that names the list field ([items], or [contexts] for
    the context decoder) is null or the empty array, as in {} (no such
    member) and in an object whose items member is null, the decoders return
    no error and an empty list, so that on exit code 0 the envelope carries
    the empty list as parsed data and its stderr is left as it was.  When
    stdout is a JSON array, string, number or boolean, or an object with a
    member that names the list field and is neither null nor an array, the
    decoders return an error, and on exit code 0 the envelope gets the parse
    error appended to its stderr and no parsed data. *)
Theorem list_shape_decides_decoding (env : Env) (stdout : string) (v : Json.json) :
  Json.parse stdout = Some v ->
  (Spec.emptyList "items" v = true ->
     Parse.parseNamespaces env stdout = Ok []
     /\ Parse.parsePods env stdout = Ok []
     /\ forall p, ExitCode p = 0 -> Stdout p = stdout ->
          App.decoded (Parse.parseNamespaces env) PNamespaces p = App.withParsed p (PNamespaces [])
          /\ App.decoded (Parse.parsePods env) PPods p = App.withParsed p (PPods []))
  /\ (Spec.emptyList "contexts" v = true ->
        Parse.parseContexts env stdout = Ok []
        /\ forall p, ExitCode p = 0 -> Stdout p = stdout ->
             App.decoded (Parse.parseContexts env) PContexts p
             = App.withParsed p (PContexts []))
  /\ (Spec.wrongKind "items" v = true ->
        Parse.parseNamespaces env stdout = Err (errorText env DecodeError stdout)
        /\ Parse.parsePods env stdout = Err (errorText env DecodeError stdout)
        /\ forall p, ExitCode p = 0 -> Stdout p = stdout ->
             App.decoded (Parse.parseNamespaces env) PNamespaces p
             = App.appendParseError p (errorText env DecodeError stdout)
             /\ App.decoded (Parse.parsePods env) PPods p
                = App.appendParseError p (errorText env DecodeError stdout))
  /\ (Spec.wrongKind "contexts" v = true ->
        Parse.parseContexts env stdout = Err (errorText env DecodeError stdout)
        /\ forall p, ExitCode p = 0 -> Stdout p = stdout ->
             App.decoded (Parse.parseContexts env) PContexts p
             = App.appendParseError p (errorText env DecodeError stdout)).
Proof.
  intro P. split; [|split; [|split]]; intro W.
  - assert (N : Parse.parseNamespaces env stdout = Ok []).
    { unfold Parse.parseNamespaces, Parse.Unmarshal, Parse.namespaceListDecoder.
      rewrite P, Struct_empty by exact W. reflexivity. }
    assert (Q : Parse.parsePods env stdout = Ok []).
    { unfold Parse.parsePods, Parse.Unmarshal, Parse.podListDecoder.
      rewrite P, Struct_empty by exact W. reflexivity. }
    split; [exact N|]. split; [exact Q|].
    intros p E S. unfold App.decoded. rewrite E, S, N, Q. auto.
  - assert (C : Parse.parseContexts env stdout = Ok []).
    { unfold Parse.parseContexts, Parse.Unmarshal, Parse.kubeConfigViewDecoder.
      rewrite P, Struct_empty by exact W. reflexivity. }
    split; [exact C|].
    intros p E S. unfold App.decoded. rewrite E, S, C. auto.
  - assert (N : Parse.parseNamespaces env stdout = Err (errorText env DecodeError stdout)).
    { unfold Parse.parseNamespaces, Parse.Unmarshal, Parse.namespaceListDecoder.
      rewrite P, Struct_wrong by exact W. reflexivity. }
    assert (Q : Parse.parsePods env stdout = Err (errorText env DecodeError stdout)).
    { unfold Parse.parsePods, Parse.Unmarshal, Parse.podListDecoder.
      rewrite P, Struct_wrong by exact W. reflexivity. }
    split; [exact N|]. split; [exact Q|].
    intros p E S. unfold App.decoded. rewrite E, S, N, Q. auto.
  - assert (C : Parse.parseContexts env stdout = Err (errorText env DecodeError stdout)).
    { unfold Parse.parseContexts, Parse.Unmarshal, Parse.kubeConfigViewDecoder.
      rewrite P, Struct_wrong by exact W. reflexivity. }
    split; [exact C|].
    intros p E S. unfold App.decoded. rewrite E, S, C. auto.
Qed.

Lemma list_shape_decides_decoding_witness :
  Parse.parseNamespaces (printing "null") "null" = Ok []
  /\ Parse.parsePods (printing "{}") "{}" = Ok []
  /\ Parse.parsePods (printing (jsonText "{'items':null}")) (jsonText "{'items':null}") = Ok []
  /\ Parse.parseContexts (printing (jsonText "{'kind':'Config'}")) (jsonText "{'kind':'Config'}")
     = Ok []
  /\ Parse.parsePods (printing (jsonText "{'items':{}}")) (jsonText "{'items':{}}")
     = Err "cannot unmarshal"
  /\ Parse.parseContexts (printing (jsonText "'none'")) (jsonText "'none'")
     = Err "cannot unmarshal".
Proof.
  split; [|split; [|split; [|split; [|split]]]].
  - apply (proj1 (@list_shape_decides_decoding (printing "null") "null" Json.JNull eq_refl)
             eq_refl).
  - apply (proj1 (@list_shape_decides_decoding (printing "{}") "{}" (Json.JObject []) eq_refl)
             eq_refl).
  - apply (proj1 (@list_shape_decides_decoding (printing (jsonText "{'items':null}"))
                    (jsonText "{'items':null}")
                    (Json.JObject [("items", Json.JNull)]) eq_refl)
             eq_refl).
  - apply (proj1 (proj2 (@list_shape_decides_decoding (printing (jsonText "{'kind':'Config'}"))
                    (jsonText "{'kind':'Config'}")
                    (Json.JObject [("kind", Json.JString "Config")]) eq_refl))
             eq_refl).
  - apply (proj1 (proj2 (proj2 (@list_shape_decides_decoding (printing (jsonText "{'items':{}}"))
                    (jsonText "{'items':{}}")
                    (Json.JObject [("items", Json.JObject [])]) eq_refl)))
             eq_refl).
  - apply (proj2 (proj2 (proj2 (@list_shape_decides_decoding (printing (jsonText "'none'"))
                    (jsonText "'none'") (Json.JString "none") eq_refl)))
             eq_refl).
Defined.

(** * Further properties of the code *)

Section ListLoopFacts.
Import Parse.

Lemma namespaces_loop items : forall acc,
  fold_left
    (fun namespaces item =>
       if String.eqb (ns_Name item) "" then namespaces
       else namespaces ++ [mkNamespace (ns_Name item)])
    items acc
  = acc ++ map mkNamespace (filter nonEmptyName (map ns_Name items)).
Proof.
  induction items as [|item items IH]; intro acc; simpl.
  - rewrite app_nil_r. reflexivity.
  - rewrite IH. unfold nonEmptyName at 2.
    destruct (String.eqb (ns_Name item) ""); simpl.
    + reflexivity.
    + rewrite <- app_assoc. reflexivity.
Qed.

Lemma contexts_loop items : forall acc,
  fold_left
    (fun out ctx =>
       if negb (String.eqb (ctx_Name ctx) "") then out ++ [ctx_Name ctx] else out)
    items acc
  = acc ++ filter nonEmptyName (map ctx_Name items).
Proof.
  induction items as [|item items IH]; intro acc; simpl.
  - rewrite app_nil_r. reflexivity.
  - rewrite IH. unfold nonEmptyName at 2.
    destruct (String.eqb (ctx_Name item) ""); simpl.
    + reflexivity.
    + rewrite <- app_assoc. reflexivity.
Qed.

End ListLoopFacts.

(** X1.  The namespace decoder returns the non-empty names of the decoded
    items, in the order of the document; it never returns a namespace with an
    empty name. *)
Theorem parseNamespaces_keeps_named_items (env : Env) (stdout : string) (l : list Namespace) :
  Parse.parseNamespaces env stdout = Ok l ->
  (forall ns, In ns l -> Namespace_Name ns <> "")
  /\ exists items,
       Parse.Unmarshal env Parse.namespaceListDecoder [] stdout = Ok items
       /\ map Namespace_Name l = filter nonEmptyName (map Parse.ns_Name items).
Proof.
  unfold Parse.parseNamespaces.
  destruct (Parse.Unmarshal env Parse.namespaceListDecoder [] stdout) as [items|msg];
    [|discriminate].
  intro H. injection H as <-. rewrite namespaces_loop. simpl.
  split.
  - intros ns Hin. apply in_map_iff in Hin as (n & <- & Hn).
    apply filter_In in Hn as [_ Hn]. unfold nonEmptyName in Hn. simpl.
    intro E. rewrite E in Hn. discriminate.
  - exists items. split; [reflexivity|].
    rewrite map_map. simpl. apply map_id.
Qed.

Lemma parseNamespaces_keeps_named_items_witness :
  exists items,
    Parse.Unmarshal (printing "") Parse.namespaceListDecoder []
      (jsonText "{'items':[{'metadata':{'name':'default'}},{'metadata':{}},{'metadata':{'name':'kube-system'}}]}")
    = Ok items
    /\ map Namespace_Name [mkNamespace "default"; mkNamespace "kube-system"]
       = filter nonEmptyName (map Parse.ns_Name items).
Proof.
  apply (proj2 (@parseNamespaces_keeps_named_items (printing "")
      (jsonText "{'items':[{'metadata':{'name':'default'}},{'metadata':{}},{'metadata':{'name':'kube-system'}}]}")
      [mkNamespace "default"; mkNamespace "kube-system"] eq_refl)).
Defined.

(** X2.  The context decoder returns the non-empty names of the decoded
    contexts, in the order of the document, and never an empty name. *)
Theorem parseContexts_keeps_named_contexts (env : Env) (stdout : string) (l : list string) :
  Parse.parseContexts env stdout = Ok l ->
  (forall name, In name l -> name <> "")
  /\ exists contexts,
       Parse.Unmarshal env Parse.kubeConfigViewDecoder [] stdout = Ok contexts
       /\ l = filter nonEmptyName (map Parse.ctx_Name contexts).
Proof.
  unfold Parse.parseContexts.
  destruct (Parse.Unmarshal env Parse.kubeConfigViewDecoder [] stdout) as [items|msg];
    [|discriminate].
  intro H. injection H as <-. rewrite contexts_loop. simpl.
  split.
  - intros n Hn. apply filter_In in Hn as [_ Hn]. unfold nonEmptyName in Hn.
    intro E. rewrite E in Hn. discriminate.
  - exists items. split; reflexivity.
Qed.

Lemma parseContexts_keeps_named_contexts_witness :
  exists contexts,
    Parse.Unmarshal (printing "") Parse.kubeConfigViewDecoder []
      (jsonText "{'contexts':[{'name':'kind-dev'},{'name':''},{'name':'prod'}]}")
    = Ok contexts
    /\ ["kind-dev"; "prod"] = filter nonEmptyName (map Parse.ctx_Name contexts).
Proof.
  apply (proj2 (@parseContexts_keeps_named_contexts (printing "")
      (jsonText "{'contexts':[{'name':'kind-dev'},{'name':''},{'name':'prod'}]}")
      ["kind-dev"; "prod"] eq_refl)).
Defined.

Section PodLoopFacts.
Import Parse.

Lemma fold_readyCount l : forall t,
  readyCount (fold_left containerStep l t) = readyCount t + Z.of_nat (readyContainers l).
Proof.
  unfold readyContainers.
  induction l as [|cs l IH]; intro t; simpl; [lia|].
  rewrite IH. unfold containerStep. cbn [readyCount].
  destruct (Ready cs); simpl List.length; lia.
Qed.

Lemma wrap64_add a b : wrap64 (wrap64 a + b) = wrap64 (a + b).
Proof.
  unfold wrap64. f_equal.
  replace ((a + 2 ^ 63) mod 2 ^ 64 - 2 ^ 63 + b + 2 ^ 63) with ((a + 2 ^ 63) mod 2 ^ 64 + b) by lia.
  rewrite Z.add_mod_idemp_l by lia. f_equal. lia.
Qed.

Lemma wrap64_small z : min_int64 <= z <= max_int64 -> wrap64 z = z.
Proof.
  unfold wrap64, min_int64, max_int64. intro H.
  rewrite Z.mod_small by lia. lia.
Qed.

Lemma containerStep_restarts t cs :
  restarts (containerStep t cs) = wrap64 (restarts t + RestartCount cs).
Proof. reflexivity. Qed.

Lemma fold_restarts l : forall t,
  l <> [] -> restarts (fold_left containerStep l t) = wrap64 (restarts t + restartSum l).
Proof.
  induction l as [|cs l IH]; intros t N; [congruence|].
  cbn [fold_left]. destruct l as [|cs' l'].
  - cbn [fold_left restartSum fold_right]. rewrite containerStep_restarts, Z.add_0_r. reflexivity.
  - rewrite IH by discriminate. rewrite containerStep_restarts, wrap64_add.
    cbn [restartSum fold_right]. f_equal. lia.
Qed.

Lemma append_empty a b : a +++ b = "" -> a = "" /\ b = "".
Proof. destruct a; simpl; [auto|discriminate]. Qed.

Lemma unitOf_nonempty d : Spec.unitOf d <> "".
Proof.
  unfold Spec.unitOf. cbv zeta.
  repeat match goal with |- context [if ?b then _ else _] => destruct b end; discriminate.
Qed.

Lemma formatAge_nonempty d : Duration.formatAge d <> "".
Proof.
  destruct (proj1 (formatAge_bucket_unit d)) as (n & ->).
  intro E. apply append_empty in E as [_ E]. exact (unitOf_nonempty _ E).
Qed.

Lemma podsFrom_names env items : forall i acc,
  map Pod_Name (podsFrom env i items acc) = map Pod_Name acc ++ map Name items.
Proof.
  induction items as [|item items IH]; intros i acc; simpl.
  - rewrite app_nil_r. reflexivity.
  - rewrite IH, map_app, <- app_assoc. reflexivity.
Qed.

Lemma podsFrom_all (P : Pod -> Prop) env items :
  (forall clock item, P (podOf clock item)) ->
  forall i acc, Forall P acc -> Forall P (podsFrom env i items acc).
Proof.
  intro H. induction items as [|item items IH]; intros i acc Hacc; simpl; [exact Hacc|].
  apply IH. apply Forall_app. split; [exact Hacc|]. constructor; [apply H|constructor].
Qed.

Lemma podsFrom_owners env items : forall i acc,
  map Pod_HasOwner (podsFrom env i items acc)
  = map Pod_HasOwner acc
    ++ map (fun item => negb (Nat.eqb (List.length (OwnerReferences item)) 0)) items.
Proof.
  induction items as [|item items IH]; intros i acc; simpl.
  - rewrite app_nil_r. reflexivity.
  - rewrite IH, map_app, <- app_assoc. simpl.
    destruct (OwnerReferences item); reflexivity.
Qed.

End PodLoopFacts.

(** X3.  The ready column of a pod is the number of containers reported
    ready, a slash, and the number of container statuses; the first never
    exceeds the second, and a pod without container statuses reads 0/0. *)
Theorem ready_fraction (clock : Z) (item : Parse.podItem) :
  Pod_Ready (Parse.podOf clock item)
  = Sprintf_d (Z.of_nat (readyContainers (Parse.ContainerStatuses item)))
      +++ "/" +++ Sprintf_d (Z.of_nat (List.length (Parse.ContainerStatuses item)))
  /\ (readyContainers (Parse.ContainerStatuses item)
      <= List.length (Parse.ContainerStatuses item))%nat
  /\ (Parse.ContainerStatuses item = [] -> Pod_Ready (Parse.podOf clock item) = "0/0").
Proof.
  assert (R : Pod_Ready (Parse.podOf clock item)
              = Sprintf_d (Z.of_nat (readyContainers (Parse.ContainerStatuses item)))
                  +++ "/" +++ Sprintf_d (Z.of_nat (List.length (Parse.ContainerStatuses item)))).
  { unfold Parse.podOf. cbn [Pod_Ready]. rewrite fold_readyCount. reflexivity. }
  split; [exact R|]. split.
  - unfold readyContainers. apply filter_length_le.
  - intro E. rewrite R, E. reflexivity.
Qed.

Lemma ready_fraction_witness :
  Pod_Ready (Parse.podOf 0
               (Parse.mkPodItem "web-0" 0 [] "Running" "" ""
                  [Parse.mkContainerStatus true 0 None None;
                   Parse.mkContainerStatus false 2 None None]))
  = "1/2".
Proof.
  exact (proj1 (ready_fraction 0
               (Parse.mkPodItem "web-0" 0 [] "Running" "" ""
                  [Parse.mkContainerStatus true 0 None None;
                   Parse.mkContainerStatus false 2 None None]))).
Defined.

(** X4.  The restarts of a pod are the sum of the restart counts of its
    containers in 64-bit arithmetic: the sum itself whenever it fits a
    64-bit integer. *)
Theorem restarts_summed (clock : Z) (item : Parse.podItem) :
  Pod_Restarts (Parse.podOf clock item) = wrap64 (restartSum (Parse.ContainerStatuses item))
  /\ (min_int64 <= restartSum (Parse.ContainerStatuses item) <= max_int64 ->
      Pod_Restarts (Parse.podOf clock item) = restartSum (Parse.ContainerStatuses item)).
Proof.
  assert (R : Pod_Restarts (Parse.podOf clock item)
              = wrap64 (restartSum (Parse.ContainerStatuses item))).
  { unfold Parse.podOf. cbn [Pod_Restarts].
    destruct (Parse.ContainerStatuses item) as [|cs l] eqn:E; [reflexivity|].
    rewrite fold_restarts by discriminate. reflexivity. }
  split; [exact R|]. intro H. rewrite R. apply wrap64_small. exact H.
Qed.

Lemma restarts_summed_witness :
  Pod_Restarts (Parse.podOf 0
                  (Parse.mkPodItem "web-0" 0 [] "Running" "" ""
                     [Parse.mkContainerStatus true 3 None None;
                      Parse.mkContainerStatus false 4 None None]))
  = 7.
Proof.
  apply (proj2 (restarts_summed 0
                  (Parse.mkPodItem "web-0" 0 [] "Running" "" ""
                     [Parse.mkContainerStatus true 3 None None;
                      Parse.mkContainerStatus false 4 None None]))).
  vm_compute. split; discriminate.
Defined.

(** X5.  The pod decoder returns one view per decoded item, in order and
    with the item's name (items without a name are kept); a view has an owner
    exactly when the item has an owner reference, and its node and age are
    never empty. *)
Theorem parsePods_one_view_per_item (env : Env) (stdout : string) (pods : list Pod) :
  Parse.parsePods env stdout = Ok pods ->
  exists items,
    Parse.Unmarshal env (Parse.podListDecoder env) [] stdout = Ok items
    /\ map Pod_Name pods = map Parse.Name items
    /\ map Pod_HasOwner pods
       = map (fun item => negb (Nat.eqb (List.length (Parse.OwnerReferences item)) 0)) items
    /\ Forall (fun p => Pod_Node p <> "" /\ Pod_Age p <> "") pods.
Proof.
  unfold Parse.parsePods.
  destruct (Parse.Unmarshal env (Parse.podListDecoder env) [] stdout) as [items|msg];
    [|discriminate].
  intro H. injection H as <-. exists items.
  split; [reflexivity|]. split; [apply podsFrom_names|]. split; [apply podsFrom_owners|].
  apply podsFrom_all; [|constructor].
  intros clock item. unfold Parse.podOf. cbn [Pod_Node Pod_Age]. split.
  - destruct (String.eqb_spec (Parse.NodeName item) ""); [discriminate|assumption].
  - destruct (negb (Parse.CreationTimestamp item =? 0)); [apply formatAge_nonempty|discriminate].
Qed.

Lemma parsePods_one_view_per_item_witness :
  exists items,
    map Pod_Name [mkPod "web-0" "Running" "0/0" 0 "-" "node-1" true] = map Parse.Name items.
Proof.
  destruct (@parsePods_one_view_per_item (printing "")
      (jsonText "{'items':[{'metadata':{'name':'web-0','ownerReferences':[{'kind':'ReplicaSet'}]},'status':{'phase':'Running','nodeName':'node-1'}}]}")
      [mkPod "web-0" "Running" "0/0" 0 "-" "node-1" true] eq_refl) as (items & _ & H & _).
  exists items. exact H.
Defined.

(** X6.  The exit code of the runner's envelope: 0 exactly when the process
    ran to completion with status 0; the status itself when that is not 0;
    -1 when the process was ended by a signal or could not be started.  The
    envelope carries the stdout of the process, the elapsed time and no
    parsed data. *)
Theorem run_exit_code (e : Runner.Execution) (args : list string) :
  let r := Runner.Run e args in
  (ExitCode r = 0 <-> Runner.waited e = Runner.Finished (Runner.Exited 0) false)
  /\ (Runner.waited e = Runner.NotStarted -> ExitCode r = -1)
  /\ (forall i, Runner.waited e = Runner.Finished Runner.Signaled i -> ExitCode r = -1)
  /\ (forall status i,
        status <> 0 -> Runner.waited e = Runner.Finished (Runner.Exited status) i ->
        ExitCode r = status)
  /\ Stdout r = Runner.stdout_buf e
  /\ DurationMs r = Runner.elapsedMs e
  /\ ParsedData r = PNil.
Proof.
  cbv zeta. unfold Runner.Run. cbn [ExitCode Stdout DurationMs ParsedData].
  split; [|split; [|split; [|split; [|auto]]]].
  - destruct (Runner.waited e) as [|ps i]; simpl.
    + split; discriminate.
    + destruct ps as [status|]; simpl.
      * destruct (Z.eqb_spec status 0) as [->|N]; simpl.
        -- destruct i; simpl; split; congruence.
        -- split; [intro; contradiction|]. intro H. injection H as -> _. contradiction.
      * split; discriminate.
  - intros ->. reflexivity.
  - intros i ->. reflexivity.
  - intros status i N ->. simpl.
    destruct (Z.eqb_spec status 0); [contradiction|reflexivity].
Qed.

Lemma run_exit_code_witness :
  ExitCode (Runner.Run (Runner.mkExecution (Runner.Finished (Runner.Exited 1) false)
                          "" "Error from server (NotFound)" Runner.CtxNil 80)
                       ["get"; "ns"; "-o"; "json"])
  = 1.
Proof.
  apply (proj1 (proj2 (proj2 (proj2
           (run_exit_code (Runner.mkExecution (Runner.Finished (Runner.Exited 1) false)
                             "" "Error from server (NotFound)" Runner.CtxNil 80)
                          ["get"; "ns"; "-o"; "json"])))) 1 false);
    [discriminate|reflexivity].
Defined.

(** X7.  Outside an expired deadline the runner returns the stderr of the
    process as it is: a cancelled run that wrote nothing has an empty stderr.
    The stderr of an envelope is either that of the process or the timeout
    message. *)
Theorem run_stderr_verbatim (e : Runner.Execution) (args : list string) :
  let r := Runner.Run e args in
  (Runner.ctxErr e <> Runner.DeadlineExceeded -> Stderr r = Runner.stderr_buf e)
  /\ (Stderr r = "" -> Runner.stderr_buf e = "" /\ Runner.ctxErr e <> Runner.DeadlineExceeded)
  /\ (Stderr r = Runner.stderr_buf e \/ Stderr r = "command timed out").
Proof.
  cbv zeta. unfold Runner.Run. cbn [Stderr].
  destruct (Runner.ctxErr e) eqn:C; simpl.
  - split; [auto|]. split; [|auto]. intro H. split; [exact H|discriminate].
  - split; [auto|]. split; [|auto]. intro H. split; [exact H|discriminate].
  - destruct (Runner.stderr_buf e) as [|c s] eqn:S; simpl.
    + split; [congruence|]. split; [discriminate|auto].
    + split; [auto|]. split; [discriminate|auto].
Qed.

Lemma run_stderr_verbatim_witness :
  Stderr (Runner.Run (Runner.mkExecution Runner.NotStarted "" "" Runner.Canceled 0)
                     ["get"; "ns"; "-o"; "json"])
  = "".
Proof.
  apply (proj1 (run_stderr_verbatim
                  (Runner.mkExecution Runner.NotStarted "" "" Runner.Canceled 0)
                  ["get"; "ns"; "-o"; "json"])).
  discriminate.
Defined.

Section ContextNameFacts.
Import Regexp RegexpSem Validate.

Lemma between_single x c : between x x c = (c =? x)%char.
Proof.
  unfold between. destruct (Ascii.eqb_spec c x) as [->|N].
  - rewrite Z.leb_refl. reflexivity.
  - apply andb_false_iff.
    destruct (Z.eq_dec (code c) (code x)) as [E|E].
    + exfalso. apply N. apply code_inj. exact E.
    + destruct (Z.leb_spec (code x) (code c)); auto. right. apply Z.leb_gt. lia.
Qed.

Lemma in_class_alnum c : in_class alnum c = alnumChar c.
Proof.
  unfold in_class, alnum, alnumChar. simpl. rewrite orb_false_r, orb_assoc. reflexivity.
Qed.

Lemma in_class_safe c :
  in_class (alnum ++ [(".", "."); ("_", "_"); (":", ":"); ("@", "@"); ("/", "/"); ("-", "-")]%char) c
  = safeChar c.
Proof.
  unfold in_class, alnum, safeChar, alnumChar. simpl.
  rewrite !between_single, orb_false_r, !orb_assoc. reflexivity.
Qed.

Lemma safeContext_lang cs :
  lang safeContextRegex cs <->
  exists first rest,
    cs = first :: rest /\ alnumChar first = true /\ forallb safeChar rest = true.
Proof.
  unfold safeContextRegex. split.
  - intro H. apply lang_cat_inv in H as (s1 & s2 & -> & H1 & H2).
    apply lang_class_inv in H1 as (first & -> & Hf). rewrite in_class_alnum in Hf.
    exists first, s2. split; [reflexivity|]. split; [exact Hf|].
    apply lang_star_class in H2. apply forallb_forall. rewrite Forall_forall in H2.
    intros x Hx. rewrite <- in_class_safe. apply H2. exact Hx.
  - intros (first & rest & -> & Hf & Hr).
    apply (LCat (s1 := [first])).
    + constructor. rewrite in_class_alnum. exact Hf.
    + apply lang_star_class. apply Forall_forall. rewrite forallb_forall in Hr.
      intros x Hx. rewrite in_class_safe. apply Hr. exact Hx.
Qed.

Lemma alnum_not_hyphen c : alnumChar c = true -> (c =? "-")%char = false.
Proof.
  destruct (Ascii.eqb_spec c "-") as [->|]; [|reflexivity].
  intro H. vm_compute in H. discriminate.
Qed.

Lemma prefix_hyphen c s : HasPrefix (String c s) "-" = (c =? "-")%char.
Proof.
  unfold HasPrefix.
  change (String.prefix "-" (String c s))
    with (if ascii_dec "-" c then String.prefix "" s else false).
  destruct (ascii_dec "-" c) as [<-|N].
  - rewrite Ascii.eqb_refl. destruct s; reflexivity.
  - symmetry. apply Ascii.eqb_neq. congruence.
Qed.

Lemma matches_safeContext s :
  MatchString safeContextRegex s = true <->
  exists first rest,
    list_ascii_of_string s = first :: rest /\ alnumChar first = true
    /\ forallb safeChar rest = true.
Proof. rewrite MatchString_lang. apply safeContext_lang. Qed.

Lemma validateContextName_safe name :
  validateContextName name = None <-> name = "" \/ safeContextName name = true.
Proof.
  unfold validateContextName, safeContextName.
  destruct name as [|c s].
  - simpl. split; auto.
  - change (String.eqb (String c s) "") with false. cbv iota.
    rewrite prefix_hyphen. cbn [list_ascii_of_string].
    destruct (MatchString safeContextRegex (String c s)) eqn:M.
    + apply matches_safeContext in M as (first & rest & E & Hf & Hr).
      cbn [list_ascii_of_string] in E. injection E as <- <-.
      rewrite (alnum_not_hyphen _ Hf), Hf, Hr. simpl.
      rewrite Z.ltb_antisym.
      destruct (len (String c s) <=? 253); simpl;
        (split; [intro H; try discriminate; auto | intros [H|H]; try discriminate; auto]).
    + assert (N : alnumChar c && forallb safeChar (list_ascii_of_string s) = false).
      { destruct (alnumChar c && forallb safeChar (list_ascii_of_string s)) eqn:A; auto.
        apply andb_true_iff in A as [A1 A2].
        assert (MatchString safeContextRegex (String c s) = true) as M'.
        { apply matches_safeContext. exists c, (list_ascii_of_string s). auto. }
        congruence. }
      rewrite N. simpl. rewrite orb_true_r.
      destruct (c =? "-")%char;
        (split; [intro H; discriminate | intros [H|H]; discriminate]).
Qed.

Lemma contextOk_no_flag name : Spec.contextOk name = true -> HasPrefix name "-" = false.
Proof.
  unfold Spec.contextOk, validateContextName.
  destruct (String.eqb_spec name "") as [->|_]; [reflexivity|].
  destruct (HasPrefix name "-"); [discriminate|reflexivity].
Qed.

Lemma label_no_flag s : Spec.dns1123Label s = true -> HasPrefix s "-" = false.
Proof.
  rewrite dns1123Label_shape. intro H. apply andb_true_iff in H as [H _].
  destruct s as [|c s]; [reflexivity|].
  rewrite prefix_hyphen. cbn [list_ascii_of_string] in H. unfold labelShape in H.
  apply andb_true_iff in H as [H _]. apply andb_true_iff in H as [_ H].
  apply negb_true_iff in H. exact H.
Qed.

End ContextNameFacts.

(** X8.  A context name passes validation exactly when it is empty, or at
    most 253 bytes that start with a letter or digit and go on with letters,
    digits and the characters . _ : @ / -.  An accepted name never starts
    with a hyphen and holds no space; the only error message is
    "invalid context name". *)
Theorem context_name_accepted_iff_safe (name : string) :
  (Validate.validateContextName name = None <-> name = "" \/ safeContextName name = true)
  /\ (Validate.validateContextName name = None ->
      HasPrefix name "-" = false
      /\ ~ In " "%char (list_ascii_of_string name))
  /\ (Validate.validateContextName name <> None ->
      Validate.validateContextName name = Some "invalid context name").
Proof.
  split; [apply validateContextName_safe|]. split.
  - intro H. split.
    + apply contextOk_no_flag. unfold Spec.contextOk. rewrite H. reflexivity.
    + apply validateContextName_safe in H as [->|H]; [simpl; tauto|].
      unfold safeContextName in H.
      destruct (list_ascii_of_string name) as [|first rest]; [discriminate|].
      apply andb_true_iff in H as [H _]. apply andb_true_iff in H as [Hf Hr].
      intros [E|Hin].
      * subst first. vm_compute in Hf. discriminate.
      * rewrite forallb_forall in Hr. specialize (Hr _ Hin). vm_compute in Hr. discriminate.
  - unfold Validate.validateContextName.
    destruct (String.eqb name ""); [congruence|].
    destruct (HasPrefix name "-"); [reflexivity|].
    destruct ((253 <? len name) || negb (Regexp.MatchString Regexp.safeContextRegex name));
      [reflexivity|congruence].
Qed.

Lemma context_name_accepted_iff_safe_witness :
  HasPrefix "arn:aws:eks:eu-west-1:123456789012:cluster/dev" "-" = false
  /\ Validate.validateContextName "--kubeconfig=/tmp/x" = Some "invalid context name".
Proof.
  split.
  - apply (proj1 (proj2 (context_name_accepted_iff_safe
                           "arn:aws:eks:eu-west-1:123456789012:cluster/dev"))).
    vm_compute. reflexivity.
  - apply (proj2 (proj2 (context_name_accepted_iff_safe "--kubeconfig=/tmp/x"))).
    vm_compute. discriminate.
Defined.

(** X9.  Whenever a call starts a process, none of the strings the caller
    supplied (context, namespace, pod name) starts with a hyphen: no input
    can be read by the binary as a flag. *)
Theorem no_flag_injection (env : Env) (c : App.Call) (a : App.App) :
  App.spawned (snd (App.invoke env c a)) <> App.spawned a ->
  Forall (fun s => HasPrefix s "-" = false) (userInputs c).
Proof.
  intro H. destruct (Spec.validCall c) eqn:V.
  - clear H. destruct c; simpl in *; repeat constructor;
      repeat match goal with
             | H : _ && _ = true |- _ => apply andb_true_iff in H as [? ?]
             end;
      try (apply contextOk_no_flag; assumption);
      try (apply label_no_flag; assumption).
  - destruct (invoke_invalid env c a V) as (args & err & E).
    rewrite E in H. simpl in H. congruence.
Qed.

Lemma no_flag_injection_witness :
  Forall (fun s => HasPrefix s "-" = false)
         (userInputs (App.CallDeletePod "kind-dev" "default" "web-0")).
Proof.
  apply (@no_flag_injection (printing "") (App.CallDeletePod "kind-dev" "default" "web-0")
           App.NewApp).
  vm_compute. discriminate.
Defined.

(** X10.  A call whose namespace and pod name are labels but whose context
    name fails validation is rejected with exit code -1, empty stdout and
    stderr "invalid context name"; no process is started, nothing is
    recorded, and the display command shows the rejected --context pair
    (for logs without the tail argument; SetContext shows use-context). *)
Theorem invalid_context_rejected (env : Env) (c : App.Call) (a : App.App) :
  labelsOk c = true ->
  Spec.contextOk (contextInput c) = false ->
  rejectedWith (Some "invalid context name") a (App.invoke env c a)
  /\ Command (fst (App.invoke env c a))
     = "kubectl "
         +++ Join (match c with
                   | App.CallSetContext _ => Spec.fixedArgs c
                   | App.CallGetPodLogs contextName namespace name _ =>
                       ["--context"; contextName; "logs"; name; "-n"; namespace]
                   | _ => "--context" :: contextInput c :: Spec.fixedArgs c
                   end) " ".
Proof.
  intros L V. unfold rejectedWith.
  destruct c; simpl in *; try discriminate.
  - unfold App.SetContext.
    assert (E : Validate.validateContextName name = Some "invalid context name").
    { apply (proj2 (proj2 (context_name_accepted_iff_safe name))).
      unfold Spec.contextOk in V. destruct (Validate.validateContextName name); congruence. }
    rewrite E. simpl. repeat split; reflexivity.
  - unfold App.ListNamespaces. rewrite (withContext_bad _ _ V). simpl. repeat split; reflexivity.
  - unfold App.ListPods. rewrite (proj1 (label_ok _ L)), (withContext_bad _ _ V).
    simpl. repeat split; reflexivity.
  - apply andb_true_iff in L as [L1 L2]. unfold App.DeletePod.
    rewrite (proj1 (label_ok _ L1)), (proj2 (label_ok _ L2)), (withContext_bad _ _ V).
    simpl. repeat split; reflexivity.
  - apply andb_true_iff in L as [L1 L2]. unfold App.GetPodLogs.
    rewrite (proj1 (label_ok _ L1)), (proj2 (label_ok _ L2)), (withContext_bad _ _ V).
    simpl. repeat split; reflexivity.
  - apply andb_true_iff in L as [L1 L2]. unfold App.DescribePod.
    rewrite (proj1 (label_ok _ L1)), (proj2 (label_ok _ L2)), (withContext_bad _ _ V).
    simpl. repeat split; reflexivity.
Qed.

Lemma invalid_context_rejected_witness :
  rejectedWith (Some "invalid context name") App.NewApp
               (App.invoke (printing "") (App.CallListNamespaces "-o=yaml") App.NewApp).
Proof.
  apply (proj1 (@invalid_context_rejected (printing "") (App.CallListNamespaces "-o=yaml")
                  App.NewApp eq_refl eq_refl)).
Defined.

Section SequenceFacts.
Import App Service.
Variable env : Env.

Lemma transcript_after_calls_from cs : forall a,
  (List.length (transcript a) <= 200)%nat ->
  transcript (invokeAll env cs a) = Spec.lastN 200 (transcript a ++ recorded env cs a).
Proof.
  induction cs as [|c cs IH]; intros a H.
  - simpl. rewrite app_nil_r. symmetry. apply lastN_short. exact H.
  - cbn [invokeAll fold_left recorded]. fold (invokeAll env cs (snd (invoke env c a))).
    destruct (Spec.validCall c) eqn:V.
    + rewrite IH.
      * rewrite (invoke_valid env c a V). cbn [fst snd transcript].
        rewrite record_lastN. unfold Transcript.capacity.
        rewrite lastN_app, <- app_assoc. reflexivity.
      * rewrite (invoke_valid env c a V). cbn [snd transcript].
        rewrite record_lastN, lastN_length. unfold Transcript.capacity. lia.
    + destruct (invoke_invalid env c a V) as (args & err & E).
      rewrite E. cbn [snd app]. apply IH. exact H.
Qed.

Lemma spawned_after_calls cs : forall a,
  spawned (invokeAll env cs a)
  = spawned a ++ map (fun c => (Spec.expectedArgs c, Spec.timeoutOf c)) (filter Spec.validCall cs).
Proof.
  induction cs as [|c cs IH]; intro a.
  - simpl. rewrite app_nil_r. reflexivity.
  - cbn [invokeAll fold_left filter]. fold (invokeAll env cs (snd (invoke env c a))).
    rewrite IH. destruct (Spec.validCall c) eqn:V.
    + rewrite (invoke_valid env c a V). cbn [snd spawned map].
      rewrite <- app_assoc. reflexivity.
    + destruct (invoke_invalid env c a V) as (args & err & E). rewrite E. reflexivity.
Qed.


Lemma finish_failed c p : ExitCode p <> 0 -> finish env c p = p.
Proof.
  intro N. apply Z.eqb_neq in N.
  destruct c; simpl; unfold decoded; rewrite ?N; reflexivity.
Qed.


End SequenceFacts.

(** X11.  After any sequence of calls the transcript is the last 200 of: what
    it held before, followed by the envelopes returned by the calls that
    passed validation, in call order. *)
Theorem transcript_after_calls (env : Env) (cs : list App.Call) (a : App.App) :
  (List.length (App.transcript a) <= 200)%nat ->
  App.transcript (Service.invokeAll env cs a)
  = Spec.lastN 200 (App.transcript a ++ recorded env cs a).
Proof. apply transcript_after_calls_from. Qed.

Lemma transcript_after_calls_witness :
  App.transcript
    (Service.invokeAll (printing "")
       [App.CallListContexts; App.CallDeletePod "" "Bad_NS" "web-0"; App.CallGetCurrentContext]
       App.NewApp)
  = recorded (printing "")
      [App.CallListContexts; App.CallDeletePod "" "Bad_NS" "web-0"; App.CallGetCurrentContext]
      App.NewApp.
Proof.
  rewrite (@transcript_after_calls (printing "")
             [App.CallListContexts; App.CallDeletePod "" "Bad_NS" "web-0";
              App.CallGetCurrentContext]
             App.NewApp); [reflexivity | simpl; lia].
Defined.

(** X12.  A sequence of calls starts exactly one process for each call that
    passes validation, in call order, with the arguments and the timeout of
    that call (30 s for logs, 15 s otherwise), and none for the others: no
    call is retried. *)
Theorem one_process_per_valid_call (env : Env) (cs : list App.Call) (a : App.App) :
  App.spawned (Service.invokeAll env cs a)
  = App.spawned a
    ++ map (fun c => (Spec.expectedArgs c, Spec.timeoutOf c)) (filter Spec.validCall cs)
  /\ (List.length (App.spawned (Service.invokeAll env cs a))
      <= List.length (App.spawned a) + List.length cs)%nat.
Proof.
  split; [apply spawned_after_calls|].
  rewrite spawned_after_calls, length_app, length_map.
  pose proof (filter_length_le Spec.validCall cs). lia.
Qed.

(** X13.  When the process of a validated call exits with a non-zero code the
    envelope of the runner is returned as it is: the output is not decoded
    and no parsed data is attached. *)
Theorem failed_process_returned_unchanged (env : Env) (c : App.Call) (a : App.App) :
  Spec.validCall c = true ->
  ExitCode (Service.processOf env c a) <> 0 ->
  fst (App.invoke env c a) = Service.processOf env c a
  /\ ParsedData (fst (App.invoke env c a)) = PNil.
Proof.
  intros V N. rewrite (invoke_valid env c a V). cbn [fst].
  rewrite (@finish_failed env c _ N). split; reflexivity.
Qed.

Lemma failed_process_returned_unchanged_witness :
  let env :=
    mkEnv (fun _ _ _ =>
             Runner.mkExecution (Runner.Finished (Runner.Exited 1) false)
               "[]" "Error from server (Forbidden)" Runner.CtxNil 40)
          (fun _ => 0) (fun _ => None) (fun _ _ => "") (fun s => s) in
  Stderr (fst (App.invoke env (App.CallListPods "" "default") App.NewApp))
  = "Error from server (Forbidden)".
Proof.
  intro env.
  rewrite (proj1 (@failed_process_returned_unchanged env (App.CallListPods "" "default")
                    App.NewApp eq_refl ltac:(discriminate))).
  reflexivity.
Defined.



(** X15.  After ClearTranscript the transcript is empty and the process log
    untouched; the calls that follow fill it from there. *)
Theorem clear_restarts_history (env : Env) (cs : list App.Call) (a : App.App) :
  let cleared := snd (App.ClearTranscript a) in
  fst (App.GetTranscript cleared) = []
  /\ App.spawned cleared = App.spawned a
  /\ App.transcript (Service.invokeAll env cs cleared) = Spec.lastN 200 (recorded env cs cleared).
Proof.
  cbv zeta. split; [reflexivity|]. split; [reflexivity|].
  rewrite transcript_after_calls_from by (simpl; lia). reflexivity.
Qed.

(** X16.  The namespace and pod name validators accept the same names; each
    answers "... is required" exactly for the empty string; an accepted name
    has between 1 and 253 bytes and does not start with a hyphen. *)
Theorem label_validators_agree (s : string) :
  (Validate.validateNamespace s = None <-> Validate.validatePodName s = None)
  /\ (Validate.validateNamespace s = Some "namespace is required" <-> s = "")
  /\ (Validate.validatePodName s = Some "pod name is required" <-> s = "")
  /\ (Validate.validateNamespace s = None -> 1 <= len s <= 253 /\ HasPrefix s "-" = false).
Proof.
  split; [|split; [|split]].
  - rewrite validateNamespace_dns1123, validatePodName_dns1123. reflexivity.
  - unfold Validate.validateNamespace. destruct s as [|c s].
    + simpl. split; reflexivity.
    + replace (len (String c s) =? 0) with false
        by (symmetry; apply Z.eqb_neq; unfold len; simpl String.length; lia).
      destruct ((253 <? len (String c s)) || negb (Regexp.MatchString Regexp.dnsLabelRegex (String c s)));
        split; discriminate.
  - unfold Validate.validatePodName. destruct s as [|c s].
    + simpl. split; reflexivity.
    + replace (len (String c s) =? 0) with false
        by (symmetry; apply Z.eqb_neq; unfold len; simpl String.length; lia).
      destruct ((253 <? len (String c s)) || negb (Regexp.MatchString Regexp.dnsLabelRegex (String c s)));
        split; discriminate.
  - intro H. split.
    + unfold Validate.validateNamespace in H.
      destruct (Z.eqb_spec (len s) 0); [discriminate|].
      destruct (Z.ltb_spec 253 (len s)); [discriminate|].
      unfold len in *. lia.
    + apply label_no_flag. apply validateNamespace_dns1123. exact H.
Qed.

Lemma label_validators_agree_witness :
  1 <= len "kube-system" <= 253 /\ HasPrefix "kube-system" "-" = false.
Proof.
  apply (proj2 (proj2 (proj2 (label_validators_agree "kube-system")))).
  vm_compute. reflexivity.
Defined.

Section ScanFacts.
Import Json.

Lemma scan_append a : forall s b,
  scan s (a +++ b) = match scan s a with Some s' => scan s' b | None => None end.
Proof.
  induction a as [|c a IH]; intros s b; simpl; [reflexivity|].
  destruct (step s c); [apply IH|reflexivity].
Qed.

Lemma plainChar_step c acc stack :
  plainChar c = true ->
  step (mkScanner (InString acc) stack None) c = Some (mkScanner (InString (c :: acc)) stack None).
Proof.
  unfold plainChar. intro H.
  apply andb_true_iff in H as [H Hb]. apply andb_true_iff in H as [H Hq].
  apply andb_true_iff in H as [Hlo _].
  apply negb_true_iff in Hb, Hq.
  unfold step. cbn [sc_step sc_stack]. rewrite Hq, Hb.
  replace (code c <? 32) with false by (symmetry; apply Z.ltb_ge; apply Z.leb_le; exact Hlo).
  reflexivity.
Qed.

Lemma scan_plain name : forall acc stack,
  plainName name = true ->
  scan (mkScanner (InString acc) stack None) name
  = Some (mkScanner (InString (rev (list_ascii_of_string name) ++ acc)) stack None).
Proof.
  unfold plainName. induction name as [|c name IH]; intros acc stack H; [reflexivity|].
  cbn [list_ascii_of_string forallb] in H. apply andb_true_iff in H as [Hc H].
  cbn [scan]. rewrite (@plainChar_step c acc stack Hc), IH by exact H.
  cbn [list_ascii_of_string rev]. rewrite <- app_assoc. reflexivity.
Qed.

Lemma text_rev name : text (rev (list_ascii_of_string name) ++ []) = name.
Proof.
  unfold text. rewrite app_nil_r, rev_involutive. apply string_of_list_ascii_of_string.
Qed.

Lemma unquote_plain name : plainName name = true -> Unquote.unquote name = name.
Proof.
  unfold plainName, Unquote.unquote. intro H.
  rewrite <- (string_of_list_ascii_of_string name) at 2. f_equal.
  induction (list_ascii_of_string name) as [|c l IH]; [reflexivity|].
  cbn [forallb] in H. apply andb_true_iff in H as [Hc H].
  unfold plainChar in Hc.
  apply andb_true_iff in Hc as [Hc Hb]. apply andb_true_iff in Hc as [Hc _].
  apply andb_true_iff in Hc as [_ Hhi]. apply negb_true_iff in Hb.
  cbn [Unquote.unquoteBytes]. rewrite Hb, Hhi, IH by exact H. reflexivity.
Qed.

(** Scanning a list whose items open with [opening], hold a plain name and
    close with [closing]. *)
Section Items.
Variable listKey opening closing : string.
Variable inner : list json -> list Frame.
Variable wrap : string -> json.

Let base : list Frame := [FObject [] (Some listKey) ObjValue].
Let itemText (name : string) : string := opening +++ name +++ closing.

Hypothesis open_first : forall done,
  scan (mkScanner BeginValueOrEmpty (FArray done :: base) None) opening
  = Some (mkScanner (InString []) (inner done) None).
Hypothesis open_next : forall done,
  scan (mkScanner BeginValue (FArray done :: base) None) opening
  = Some (mkScanner (InString []) (inner done) None).
Hypothesis close_item : forall done acc,
  scan (mkScanner (InString acc) (inner done) None) closing
  = Some (mkScanner EndValue (FArray (wrap (text acc) :: done) :: base) None).

Lemma scan_item name done (first : bool) :
  plainName name = true ->
  scan (mkScanner (if first then BeginValueOrEmpty else BeginValue) (FArray done :: base) None)
       (itemText name)
  = Some (mkScanner EndValue (FArray (wrap name :: done) :: base) None).
Proof.
  intro H. unfold itemText. rewrite scan_append.
  replace (scan (mkScanner (if first then BeginValueOrEmpty else BeginValue)
                           (FArray done :: base) None) opening)
    with (Some (mkScanner (InString []) (inner done) None))
    by (destruct first; [rewrite open_first | rewrite open_next]; reflexivity).
  rewrite scan_append, scan_plain by exact H.
  rewrite close_item, text_rev. reflexivity.
Qed.

Lemma scan_items names : forall name done (first : bool),
  Forall (fun n => plainName n = true) (name :: names) ->
  scan (mkScanner (if first then BeginValueOrEmpty else BeginValue) (FArray done :: base) None)
       (Join (map itemText (name :: names)) ",")
  = Some (mkScanner EndValue (FArray (rev (map wrap (name :: names)) ++ done) :: base) None).
Proof.
  induction names as [|next names IH]; intros name done first H.
  - cbn [map Join rev app]. apply scan_item. inversion H; assumption.
  - inversion H as [|? ? Hn Hrest]; subst.
    change (Join (map itemText (name :: next :: names)) ",")
      with (itemText name +++ "," +++ Join (map itemText (next :: names)) ",").
    rewrite scan_append, (@scan_item name done first Hn).
    rewrite scan_append.
    change (scan (mkScanner EndValue (FArray (wrap name :: done) :: base) None) ",")
      with (Some (mkScanner BeginValue (FArray (wrap name :: done) :: base) None)).
    cbv beta iota.
    rewrite (IH next (wrap name :: done) false Hrest).
    cbn [map rev]. rewrite <- !app_assoc. reflexivity.
Qed.

End Items.

End ScanFacts.

Section DocumentFacts.
Import Json.

Lemma close_list listKey done :
  scan (mkScanner EndValue [FArray done; FObject [] (Some listKey) ObjValue] None) "]}"
  = Some (mkScanner EndValue [] (Some (JObject [(listKey, JArray (rev done))]))).
Proof. reflexivity. Qed.

Lemma empty_list listKey :
  scan (mkScanner BeginValueOrEmpty [FArray []; FObject [] (Some listKey) ObjValue] None) "]}"
  = Some (mkScanner EndValue [] (Some (JObject [(listKey, JArray [])]))).
Proof. reflexivity. Qed.

Lemma list_document_parses listKey listOpen opening closing inner wrap names :
  scan (mkScanner BeginValue [] None) listOpen
  = Some (mkScanner BeginValueOrEmpty [FArray []; FObject [] (Some listKey) ObjValue] None) ->
  (forall done,
     scan (mkScanner BeginValueOrEmpty [FArray done; FObject [] (Some listKey) ObjValue] None)
          opening
     = Some (mkScanner (InString []) (inner done) None)) ->
  (forall done,
     scan (mkScanner BeginValue [FArray done; FObject [] (Some listKey) ObjValue] None) opening
     = Some (mkScanner (InString []) (inner done) None)) ->
  (forall done acc,
     scan (mkScanner (InString acc) (inner done) None) closing
     = Some (mkScanner EndValue
               [FArray (wrap (text acc) :: done); FObject [] (Some listKey) ObjValue] None)) ->
  Forall (fun n => plainName n = true) names ->
  parse (listOpen +++ Join (map (fun n => opening +++ n +++ closing) names) "," +++ "]}")
  = Some (JObject [(listKey, JArray (map wrap names))]).
Proof.
  intros Hopen H1 H2 H3 Hn. unfold parse. rewrite scan_append, Hopen.
  destruct names as [|name names].
  - cbn [map Join]. change ("" +++ "]}") with "]}". rewrite empty_list. reflexivity.
  - rewrite scan_append.
    rewrite (@scan_items listKey opening closing inner wrap H1 H2 H3 names name [] true Hn).
    rewrite close_list, app_nil_r, rev_involutive. reflexivity.
Qed.

Lemma namespace_document_parses names :
  Forall (fun n => plainName n = true) names ->
  parse (namespaceListText names) = Some (JObject [("items", JArray (map namespaceJson names))]).
Proof.
  intro H. unfold namespaceListText.
  apply (@list_document_parses "items" namespaceListOpen namespaceOpen namespaceClose
           (fun done => [FObject [] (Some "name") ObjValue;
                         FObject [] (Some "metadata") ObjValue;
                         FArray done; FObject [] (Some "items") ObjValue])
           namespaceJson names); try exact H; reflexivity.
Qed.

Lemma context_document_parses names :
  Forall (fun n => plainName n = true) names ->
  parse (contextListText names) = Some (JObject [("contexts", JArray (map contextJson names))]).
Proof.
  intro H. unfold contextListText.
  apply (@list_document_parses "contexts" contextListOpen contextOpen contextClose
           (fun done => [FObject [] (Some "name") ObjValue;
                         FArray done; FObject [] (Some "contexts") ObjValue])
           contextJson names); try exact H; reflexivity.
Qed.

Lemma namespace_items_decode names : forall cur,
  Forall (fun n => plainName n = true) names ->
  Into.elements (Parse.mkNamespaceItem "") Parse.namespaceItemDecoder
                (map namespaceJson names) cur
  = Some (map Parse.mkNamespaceItem names).
Proof.
  induction names as [|name names IH]; intros cur H; [reflexivity|].
  inversion H as [|? ? Hn Hrest]; subst.
  cbn [map Into.elements].
  change (Parse.namespaceItemDecoder (namespaceJson name) (hd (Parse.mkNamespaceItem "") cur))
    with (Some (Parse.mkNamespaceItem (Unquote.unquote name))).
  rewrite (unquote_plain _ Hn), IH by exact Hrest. reflexivity.
Qed.

Lemma context_items_decode names : forall cur,
  Forall (fun n => plainName n = true) names ->
  Into.elements (Parse.mkContextItem "") Parse.contextItemDecoder
                (map contextJson names) cur
  = Some (map Parse.mkContextItem names).
Proof.
  induction names as [|name names IH]; intros cur H; [reflexivity|].
  inversion H as [|? ? Hn Hrest]; subst.
  cbn [map Into.elements].
  change (Parse.contextItemDecoder (contextJson name) (hd (Parse.mkContextItem "") cur))
    with (Some (Parse.mkContextItem (Unquote.unquote name))).
  rewrite (unquote_plain _ Hn), IH by exact Hrest. reflexivity.
Qed.

Lemma labelChar_plain c : Spec.lowerAlnum c || Spec.hyphen c = true -> plainChar c = true.
Proof.
  intro H. unfold plainChar.
  assert (R : 45 <= code c < 128).
  { pose proof (label_ascii _ H) as Hhi. split; [|exact Hhi].
    unfold Spec.lowerAlnum, Spec.hyphen, between in H.
    change (code "a") with 97 in H. change (code "0") with 48 in H.
    destruct (Ascii.eqb_spec c "-") as [E|_]; [rewrite E; vm_compute; discriminate|].
    rewrite orb_false_r in H.
    apply orb_true_iff in H as [H|H]; apply andb_true_iff in H as [H _];
      apply Z.leb_le in H; lia. }
  assert (N : code c <> 92).
  { intro E. unfold Spec.lowerAlnum, Spec.hyphen, between in H. rewrite E in H.
    destruct (Ascii.eqb_spec c "-") as [E'|_]; [rewrite E' in E; vm_compute in E; discriminate|].
    vm_compute in H. discriminate. }
  replace (32 <=? code c) with true by (symmetry; apply Z.leb_le; lia).
  replace (code c <? 128) with true by (symmetry; apply Z.ltb_lt; lia).
  simpl. apply andb_true_iff. split; apply negb_true_iff; apply Ascii.eqb_neq; intro E.
  - assert (E' : code c = 34) by (rewrite E; reflexivity). lia.
  - apply N. rewrite E. reflexivity.
Qed.

Lemma label_plain s : Spec.dns1123Label s = true -> plainName s = true /\ nonEmptyName s = true.
Proof.
  rewrite dns1123Label_shape. intro H. apply andb_true_iff in H as [H _].
  unfold plainName, nonEmptyName. destruct s as [|c s]; [discriminate|].
  split; [|reflexivity].
  unfold labelShape in H. cbn [list_ascii_of_string] in *.
  apply andb_true_iff in H as [H _]. apply andb_true_iff in H as [H _].
  apply forallb_forall. rewrite forallb_forall in H.
  intros x Hx. apply labelChar_plain. apply H. exact Hx.
Qed.

End DocumentFacts.

(** X17.  Reading back a namespace list document: for names made of plain
    characters the decoder returns the non-empty ones in order, and for
    DNS-1123 labels it returns exactly the names written. *)
Theorem namespace_document_round_trip (env : Env) (names : list string) :
  (Forall (fun n => plainName n = true) names ->
   Parse.parseNamespaces env (namespaceListText names)
   = Ok (map mkNamespace (filter nonEmptyName names)))
  /\ (Forall (fun n => Spec.dns1123Label n = true) names ->
      Parse.parseNamespaces env (namespaceListText names) = Ok (map mkNamespace names)).
Proof.
  assert (P : Forall (fun n => plainName n = true) names ->
              Parse.parseNamespaces env (namespaceListText names)
              = Ok (map mkNamespace (filter nonEmptyName names))).
  { intro H. unfold Parse.parseNamespaces, Parse.Unmarshal.
    rewrite (namespace_document_parses H).
    change (Parse.namespaceListDecoder
              (Json.JObject [("items", Json.JArray (map namespaceJson names))]) [])
      with (match Into.elements (Parse.mkNamespaceItem "") Parse.namespaceItemDecoder
                    (map namespaceJson names) [] with
            | Some items => Some items
            | None => None
            end).
    rewrite (namespace_items_decode [] H), namespaces_loop, map_map. simpl.
    rewrite map_id. reflexivity. }
  split; [exact P|].
  intro H. rewrite P.
  - f_equal. f_equal. apply forallb_filter_id. apply forallb_forall.
    rewrite Forall_forall in H. intros n Hn. apply (proj2 (label_plain _ (H n Hn))).
  - eapply Forall_impl; [|exact H]. intros n Hn. apply (proj1 (label_plain _ Hn)).
Qed.

Lemma namespace_document_round_trip_witness :
  Parse.parseNamespaces (printing "") (namespaceListText ["default"; ""; "kube-system"])
  = Ok [mkNamespace "default"; mkNamespace "kube-system"].
Proof.
  apply (proj1 (namespace_document_round_trip (printing "") ["default"; ""; "kube-system"])).
  repeat constructor.
Defined.

(** X18.  Reading back a kubeconfig view document: for context names made of
    plain characters the decoder returns the non-empty ones in order. *)
Theorem context_document_round_trip (env : Env) (names : list string) :
  Forall (fun n => plainName n = true) names ->
  Parse.parseContexts env (contextListText names) = Ok (filter nonEmptyName names).
Proof.
  intro H. unfold Parse.parseContexts, Parse.Unmarshal.
  rewrite (context_document_parses H).
  change (Parse.kubeConfigViewDecoder
            (Json.JObject [("contexts", Json.JArray (map contextJson names))]) [])
    with (match Into.elements (Parse.mkContextItem "") Parse.contextItemDecoder
                  (map contextJson names) [] with
          | Some items => Some items
          | None => None
          end).
  rewrite (context_items_decode [] H), contexts_loop, map_map. simpl.
  rewrite map_id. reflexivity.
Qed.

Lemma context_document_round_trip_witness :
  Parse.parseContexts (printing "")
    (contextListText ["kind-dev"; "arn:aws:eks:eu-west-1:123456789012:cluster/dev"])
  = Ok ["kind-dev"; "arn:aws:eks:eu-west-1:123456789012:cluster/dev"].
Proof.
  apply (@context_document_round_trip (printing "")
           ["kind-dev"; "arn:aws:eks:eu-west-1:123456789012:cluster/dev"]).
  repeat constructor.
Defined.

(** * The pod decoder on a pod list document *)

Section RenderFacts.
Import Json Printer.


Lemma scan_quoted s stack raw :
  step s quote = Some (mkScanner (InString []) stack None) ->
  plainName raw = true ->
  scan s (quoted raw) = complete (JString raw) stack.
Proof.
  intros Hq H. unfold quoted. cbn [scan]. rewrite Hq.
  rewrite scan_append, scan_plain by exact H.
  cbn [scan]. unfold step. cbn [sc_step sc_stack]. rewrite Ascii.eqb_refl.
  rewrite text_rev. destruct (complete (JString raw) stack); reflexivity.
Qed.

Lemma push_fits f next stack :
  Z.of_nat (List.length stack) + 1 <= maxNestingDepth ->
  push f next stack = Some (mkScanner next (f :: stack) None).
Proof.
  intro H. unfold push.
  replace (Z.of_nat (List.length (f :: stack)) <=? maxNestingDepth) with true; [reflexivity|].
  symmetry. apply Z.leb_le. cbn [List.length]. lia.
Qed.

Lemma reads_elements vs : forall stack done (first : bool),
  Forall reads vs -> vs <> [] ->
  Z.of_nat (List.length stack) + 1
    + Z.of_nat (fold_right (fun x d => Nat.max (depth x) d) 0%nat vs) <= maxNestingDepth ->
  scan (mkScanner (if first then BeginValueOrEmpty else BeginValue) (FArray done :: stack) None)
       (Join (map render vs) ",")
  = Some (mkScanner EndValue (FArray (rev vs ++ done) :: stack) None).
Proof.
  induction vs as [|x rest IH]; intros stack done first H N D; [congruence|].
  inversion H as [|? ? Hx Hrest]; subst. cbn [fold_right] in D.
  assert (Dx : Z.of_nat (List.length (FArray done :: stack)) + Z.of_nat (depth x)
               <= maxNestingDepth) by (cbn [List.length]; lia).
  destruct rest as [|y rest'].
  - cbn [map Join rev app]. rewrite (Hx _ first Dx). reflexivity.
  - change (Join (map render (x :: y :: rest')) ",")
      with (render x +++ "," +++ Join (map render (y :: rest')) ",").
    rewrite scan_append, (Hx _ first Dx). cbn [complete].
    rewrite scan_append.
    change (scan (mkScanner EndValue (FArray (x :: done) :: stack) None) ",")
      with (Some (mkScanner BeginValue (FArray (x :: done) :: stack) None)).
    cbv beta iota.
    rewrite (IH stack (x :: done) false Hrest) by (try discriminate; lia).
    cbn [rev]. rewrite <- !app_assoc. reflexivity.
Qed.

Lemma reads_members ms : forall stack done (first : bool),
  Forall (fun m => reads (snd m)) ms -> ms <> [] ->
  forallb (fun m => plainName (fst m) && printable (snd m)) ms = true ->
  Z.of_nat (List.length stack) + 1
    + Z.of_nat (fold_right (fun m d => Nat.max (depth (snd m)) d) 0%nat ms) <= maxNestingDepth ->
  scan (mkScanner (if first then BeginStringOrEmpty else BeginString)
                  (FObject done None ObjKey :: stack) None)
       (Join (map (fun m => quoted (fst m) +++ ":" +++ render (snd m)) ms) ",")
  = Some (mkScanner EndValue (FObject (rev ms ++ done) None ObjValue :: stack) None).
Proof.
  induction ms as [|[k x] rest IH]; intros stack done first H N W D; [congruence|].
  inversion H as [|? ? Hx Hrest]; subst. cbn [fold_right snd] in D. cbn [snd] in Hx.
  cbn [forallb fst snd] in W. apply andb_true_iff in W as [Wk Wrest].
  apply andb_true_iff in Wk as [Wk _].
  assert (Dx : Z.of_nat (List.length (FObject done (Some k) ObjValue :: stack))
               + Z.of_nat (depth x) <= maxNestingDepth) by (cbn [List.length]; lia).
  assert (M : scan (mkScanner (if first then BeginStringOrEmpty else BeginString)
                              (FObject done None ObjKey :: stack) None)
                   (quoted k +++ ":" +++ render x)
              = Some (mkScanner EndValue (FObject ((k, x) :: done) None ObjValue :: stack) None)).
  { rewrite scan_append.
    rewrite (@scan_quoted _ (FObject done None ObjKey :: stack) k)
      by (try exact Wk; destruct first; reflexivity).
    cbn [complete]. rewrite scan_append.
    change (scan (mkScanner EndValue (FObject done (Some k) ObjKey :: stack) None) ":")
      with (Some (mkScanner BeginValue (FObject done (Some k) ObjValue :: stack) None)).
    cbv beta iota. rewrite (Hx _ false Dx). reflexivity. }
  destruct rest as [|m rest'].
  - cbn [map Join rev app fst snd]. exact M.
  - change (Join (map (fun m => quoted (fst m) +++ ":" +++ render (snd m)) ((k, x) :: m :: rest')) ",")
      with ((quoted k +++ ":" +++ render x) +++ ","
            +++ Join (map (fun m => quoted (fst m) +++ ":" +++ render (snd m)) (m :: rest')) ",").
    rewrite scan_append, M, scan_append.
    change (scan (mkScanner EndValue (FObject ((k, x) :: done) None ObjValue :: stack) None) ",")
      with (Some (mkScanner BeginString (FObject ((k, x) :: done) None ObjKey :: stack) None)).
    cbv beta iota.
    rewrite (IH stack ((k, x) :: done) false Hrest) by (try discriminate; try exact Wrest; lia).
    cbn [rev]. rewrite <- !app_assoc. reflexivity.
Qed.

Lemma printable_reads v : printable v = true -> reads v.
Proof.
  induction v as [| b | literal | raw | vs IH | ms IH] using json_induction;
    intros W stack first D.
  - transitivity (match complete JNull stack with Some s' => Some s' | None => None end);
      [destruct first; reflexivity | destruct (complete JNull stack); reflexivity].
  - transitivity (match complete (JBool b) stack with Some s' => Some s' | None => None end);
      [destruct b, first; reflexivity | destruct (complete (JBool b) stack); reflexivity].
  - discriminate.
  - apply scan_quoted; [destruct first; reflexivity | exact W].
  - cbn [render depth] in *.
    assert (R : Forall reads vs).
    { apply Forall_forall. intros x Hx. rewrite Forall_forall in IH. apply IH; [exact Hx|].
      cbn [printable] in W. rewrite forallb_forall in W. apply W. exact Hx. }
    change ("[" +++ Join (map render vs) "," +++ "]")
      with (String "[" (Join (map render vs) "," +++ "]")).
    cbn [scan].
    replace (step (mkScanner (if first then BeginValueOrEmpty else BeginValue) stack None) "[")
      with (push (FArray []) BeginValueOrEmpty stack) by (destruct first; reflexivity).
    rewrite push_fits by lia.
    destruct vs as [|x rest].
    + transitivity (match complete (JArray []) stack with Some s' => Some s' | None => None end);
        [reflexivity | destruct (complete (JArray []) stack); reflexivity].
    + rewrite scan_append, (@reads_elements (x :: rest) stack [] true R) by (try discriminate; lia).
      rewrite app_nil_r.
      change (scan (mkScanner EndValue (FArray (rev (x :: rest)) :: stack) None) "]")
        with (match complete (JArray (rev (rev (x :: rest)))) stack with
              | Some s' => Some s'
              | None => None
              end).
      rewrite rev_involutive. destruct (complete (JArray (x :: rest)) stack); reflexivity.
  - cbn [render depth] in *.
    assert (R : Forall (fun m => reads (snd m)) ms).
    { apply Forall_forall. intros m Hm. rewrite Forall_forall in IH. apply IH; [exact Hm|].
      cbn [printable] in W. rewrite forallb_forall in W. specialize (W _ Hm).
      apply andb_true_iff in W as [_ W]. exact W. }
    change ("{" +++ Join (map (fun m => quoted (fst m) +++ ":" +++ render (snd m)) ms) "," +++ "}")
      with (String "{" (Join (map (fun m => quoted (fst m) +++ ":" +++ render (snd m)) ms) ","
                          +++ "}")).
    cbn [scan].
    replace (step (mkScanner (if first then BeginValueOrEmpty else BeginValue) stack None) "{")
      with (push (FObject [] None ObjKey) BeginStringOrEmpty stack) by (destruct first; reflexivity).
    rewrite push_fits by lia.
    destruct ms as [|m rest].
    + transitivity (match complete (JObject []) stack with Some s' => Some s' | None => None end);
        [reflexivity | destruct (complete (JObject []) stack); reflexivity].
    + rewrite scan_append, (@reads_members (m :: rest) stack [] true R)
        by (try discriminate; try exact W; lia).
      rewrite app_nil_r.
      change (scan (mkScanner EndValue (FObject (rev (m :: rest)) None ObjValue :: stack) None) "}")
        with (match complete (JObject (rev (rev (m :: rest)))) stack with
              | Some s' => Some s'
              | None => None
              end).
      rewrite rev_involutive. destruct (complete (JObject (m :: rest)) stack); reflexivity.
Qed.

(** The scanner reads back what [render] writes. *)
Lemma parse_render v :
  printable v = true -> Z.of_nat (depth v) <= maxNestingDepth -> parse (render v) = Some v.
Proof.
  intros W D. unfold parse.
  rewrite (@printable_reads v W [] false) by (cbn [List.length]; lia).
  reflexivity.
Qed.

End RenderFacts.

Section PodDocumentFacts.
Import Json Printer Parse.

Lemma maxDepth_le (A : Type) (f : A -> nat) (d : nat) l :
  Forall (fun x => (f x <= d)%nat) l ->
  (fold_right (fun x m => Nat.max (f x) m) 0%nat l <= d)%nat.
Proof. induction 1; cbn [fold_right]; lia. Qed.

Lemma reasonJson_depth o : (depth (reasonJson o) <= 1)%nat.
Proof. destruct o; cbn; lia. Qed.

Lemma containerJson_depth cs : (depth (containerJson cs) <= 3)%nat.
Proof.
  unfold containerJson. cbn [depth fold_right snd].
  pose proof (reasonJson_depth (Waiting cs)). pose proof (reasonJson_depth (Terminated cs)). lia.
Qed.

Lemma podJson_depth item : (depth (podJson item) <= 6)%nat.
Proof.
  unfold podJson. cbn [depth fold_right snd].
  assert (fold_right (fun x m => Nat.max (depth x) m) 0%nat
                     (map containerJson (ContainerStatuses item)) <= 3)%nat.
  { apply maxDepth_le. apply Forall_forall. intros x Hx.
    apply in_map_iff in Hx as (cs & <- & _). apply containerJson_depth. }
  lia.
Qed.

Lemma podListJson_depth items : (depth (podListJson items) <= 8)%nat.
Proof.
  unfold podListJson. cbn [depth fold_right snd].
  assert (fold_right (fun x m => Nat.max (depth x) m) 0%nat (map podJson items) <= 6)%nat.
  { apply maxDepth_le. apply Forall_forall. intros x Hx.
    apply in_map_iff in Hx as (i & <- & _). apply podJson_depth. }
  lia.
Qed.

Lemma reasonJson_printable o : plainReason o = true -> printable (reasonJson o) = true.
Proof. destruct o; cbn; [intros ->; reflexivity | reflexivity]. Qed.

Lemma podJson_printable item : writable item = true -> printable (podJson item) = true.
Proof.
  unfold writable. intro W.
  apply andb_true_iff in W as [W Wc]. apply andb_true_iff in W as [W Wr].
  apply andb_true_iff in W as [Wn Wp].
  unfold podJson. cbn [printable forallb fst snd]. rewrite Wn, Wp, Wr. cbn [andb].
  rewrite !andb_true_r. apply forallb_forall. intros x Hx.
  apply in_map_iff in Hx as (cs & <- & Hcs).
  rewrite forallb_forall in Wc. specialize (Wc _ Hcs).
  apply andb_true_iff in Wc as [Ww Wt].
  unfold containerJson. cbn [printable forallb fst snd].
  rewrite (reasonJson_printable _ Ww), (reasonJson_printable _ Wt). reflexivity.
Qed.

Lemma podListJson_printable items :
  Forall (fun i => writable i = true) items -> printable (podListJson items) = true.
Proof.
  intro H. unfold podListJson. cbn [printable forallb fst snd]. rewrite andb_true_r.
  apply forallb_forall. intros x Hx. apply in_map_iff in Hx as (i & <- & Hi).
  rewrite Forall_forall in H. apply podJson_printable. apply H. exact Hi.
Qed.

Lemma pod_document_parses items :
  Forall (fun i => writable i = true) items ->
  parse (podListText items) = Some (podListJson items).
Proof.
  intro H. apply parse_render; [apply podListJson_printable; exact H|].
  pose proof (podListJson_depth items). unfold maxNestingDepth. lia.
Qed.


Lemma unquoted_plain o : plainReason o = true -> unquoted o = o.
Proof. destruct o as [r|]; [|reflexivity]. cbn. intro H. rewrite (unquote_plain _ H). reflexivity. Qed.

Lemma container_decodes cs cur :
  plainReason (Waiting cs) = true -> plainReason (Terminated cs) = true ->
  containerStatusDecoder (containerJson cs) cur
  = Some (mkContainerStatus (Ready cs) (RestartCount cur) (Waiting cs) (Terminated cs)).
Proof.
  intros Hw Ht.
  transitivity (Some (mkContainerStatus (Ready cs) (RestartCount cur)
                        (unquoted (Waiting cs)) (unquoted (Terminated cs)))).
  - destruct cs as [rdy rc [w|] [t|]]; reflexivity.
  - rewrite (unquoted_plain _ Hw), (unquoted_plain _ Ht). reflexivity.
Qed.

Lemma containers_decode l :
  forallb (fun cs => plainReason (Waiting cs) && plainReason (Terminated cs)) l = true ->
  Into.elements zeroContainerStatus containerStatusDecoder (map containerJson l) []
  = Some (map writtenContainer l).
Proof.
  induction l as [|cs l IH]; intro H; [reflexivity|].
  cbn [forallb] in H. apply andb_true_iff in H as [Hc H].
  apply andb_true_iff in Hc as [Hw Ht].
  cbn [map Into.elements hd tl].
  rewrite (@container_decodes cs zeroContainerStatus Hw Ht), (IH H). reflexivity.
Qed.


Lemma pod_fields_decode env (name phase reason : string) (vs : list Json.json) css :
  Into.elements zeroContainerStatus containerStatusDecoder vs [] = Some css ->
  podItemDecoder env
    (Json.JObject
       [("metadata", Json.JObject [("name", Json.JString name)]);
        ("status",
         Json.JObject
           [("phase", Json.JString phase);
            ("reason", Json.JString reason);
            ("containerStatuses", Json.JArray vs)])])
    zeroPodItem
  = Some (mkPodItem (Unquote.unquote name) 0 [] (Unquote.unquote phase)
                    (Unquote.unquote reason) "" css).
Proof.
  intro H. unfold podItemDecoder, Into.Struct.
  do 6 (cbn -[Into.elements Unquote.unquote containerStatusDecoder]; known_keys).
  unfold Into.field, Into.Slice. cbn [ContainerStatuses]. rewrite H. reflexivity.
Qed.

Lemma pod_decodes env item :
  writable item = true ->
  podItemDecoder env (podJson item) zeroPodItem = Some (written item).
Proof.
  unfold writable. intro W.
  apply andb_true_iff in W as [W Wc]. apply andb_true_iff in W as [W Wr].
  apply andb_true_iff in W as [Wn Wp].
  unfold podJson. rewrite (@pod_fields_decode env _ _ _ _ _ (containers_decode _ Wc)).
  rewrite (unquote_plain _ Wn), (unquote_plain _ Wp), (unquote_plain _ Wr). reflexivity.
Qed.

Lemma pods_decode env items :
  Forall (fun i => writable i = true) items ->
  Into.elements zeroPodItem (podItemDecoder env) (map podJson items) []
  = Some (map written items).
Proof.
  induction 1 as [|item items W _ IH]; [reflexivity|].
  cbn [map Into.elements hd tl]. rewrite (pod_decodes env _ W), IH. reflexivity.
Qed.

Lemma pod_document_decodes env items :
  Forall (fun i => writable i = true) items ->
  Unmarshal env (podListDecoder env) [] (podListText items) = Ok (map written items).
Proof.
  intro H. unfold Unmarshal. rewrite (pod_document_parses H).
  change (podListDecoder env (podListJson items) [])
    with (match Into.elements zeroPodItem (podItemDecoder env) (map podJson items) [] with
          | Some l => Some l
          | None => None
          end).
  rewrite (pods_decode env H). reflexivity.
Qed.

Lemma written_status item : Spec.statusByPrecedence (written item) = Spec.statusByPrecedence item.
Proof.
  unfold Spec.statusByPrecedence, written. cbn [ContainerStatuses Reason Phase].
  replace (Spec.lastReason (map writtenContainer (ContainerStatuses item)))
    with (Spec.lastReason (ContainerStatuses item)); [reflexivity|].
  induction (ContainerStatuses item) as [|cs l IH]; [reflexivity|].
  cbn [map Spec.lastReason]. rewrite <- IH. reflexivity.
Qed.

Lemma podOf_status clock item :
  Pod_Status (podOf clock item) = Spec.statusByPrecedence item.
Proof.
  unfold podOf, Spec.statusByPrecedence. cbn [Pod_Status].
  rewrite fold_status. cbn [status].
  destruct (String.eqb (Reason item) ""); reflexivity.
Qed.

Lemma podsFrom_statuses env items : forall i acc,
  map Pod_Status (podsFrom env i items acc)
  = map Pod_Status acc ++ map Spec.statusByPrecedence items.
Proof.
  induction items as [|item items IH]; intros i acc; cbn [podsFrom map].
  - rewrite app_nil_r. reflexivity.
  - rewrite IH, map_app, <- app_assoc. cbn [map app]. rewrite podOf_status. reflexivity.
Qed.

End PodDocumentFacts.

(** C3 does not hold as stated: a pod with phase "Running" whose last
    container has the waiting reason "CrashLoopBackOff" and a terminated
    reason as well decodes to the terminated reason, which the loop reads
    after the waiting one. *)
Lemma crash_loop_overridden_by_terminated :
  Parse.Unmarshal (printing "") (Parse.podListDecoder (printing "")) []
    (jsonText "{'items':[{'metadata':{'name':'web-0'},'status':{'phase':'Running','containerStatuses':[{'ready':false,'restartCount':7,'state':{'waiting':{'reason':'CrashLoopBackOff'},'terminated':{'reason':'Error'}}}]}}]}")
  = Ok [Parse.mkPodItem "web-0" 0 [] "Running" "" ""
          [Parse.mkContainerStatus false 7 (Some "CrashLoopBackOff") (Some "Error")]]
  /\ Parse.parsePods (printing "")
       (jsonText "{'items':[{'metadata':{'name':'web-0'},'status':{'phase':'Running','containerStatuses':[{'ready':false,'restartCount':7,'state':{'waiting':{'reason':'CrashLoopBackOff'},'terminated':{'reason':'Error'}}}]}}]}")
     = Ok [mkPod "web-0" "Error" "0/1" 7 "-" "-" false].
Proof. vm_compute. split; reflexivity. Qed.

(** C3, amended.  The pod decoder derives the status of every decoded item
    with the precedence of the specification: the reason of the last
    container, in listed order, that has a non-empty terminated or waiting
    reason (terminated over waiting within one container), else
    [status.reason] if non-empty, else the phase.  This holds of whatever the
    decoder returns, and on the text of a pod list the decoder returns the
    pods of the list with that status.  In particular the document of a pod
    with phase "Running" whose last container waits with reason
    "CrashLoopBackOff" and has no terminated reason decodes to status
    "CrashLoopBackOff". *)
Theorem parsePods_status_precedence (env : Env) :
  (forall stdout pods,
     Parse.parsePods env stdout = Ok pods ->
     exists items,
       Parse.Unmarshal env (Parse.podListDecoder env) [] stdout = Ok items
       /\ map Pod_Status pods = map Spec.statusByPrecedence items
       /\ forall i item earlier final,
            nth_error items i = Some item ->
            Parse.ContainerStatuses item = earlier ++ [final] ->
            Parse.Phase item = "Running" ->
            Parse.Waiting final = Some "CrashLoopBackOff" ->
            Spec.nonEmpty (Parse.Terminated final) = None ->
            option_map Pod_Status (nth_error pods i) = Some "CrashLoopBackOff")
  /\ (forall items,
        Forall (fun item => writable item = true) items ->
        exists pods,
          Parse.parsePods env (podListText items) = Ok pods
          /\ map Pod_Name pods = map Parse.Name items
          /\ map Pod_Status pods = map Spec.statusByPrecedence items)
  /\ (forall item earlier final,
        writable item = true ->
        Parse.ContainerStatuses item = earlier ++ [final] ->
        Parse.Phase item = "Running" ->
        Parse.Waiting final = Some "CrashLoopBackOff" ->
        Spec.nonEmpty (Parse.Terminated final) = None ->
        exists pod,
          Parse.parsePods env (podListText [item]) = Ok [pod]
          /\ Pod_Name pod = Parse.Name item
          /\ Pod_Status pod = "CrashLoopBackOff").
Proof.
  assert (A : forall items,
             Forall (fun item => writable item = true) items ->
             Parse.parsePods env (podListText items)
             = Ok (Parse.podsFrom env 0 (map written items) [])).
  { intros items W. unfold Parse.parsePods. rewrite (pod_document_decodes env W). reflexivity. }
  assert (B : forall item earlier final,
             Parse.ContainerStatuses item = earlier ++ [final] ->
             Parse.Waiting final = Some "CrashLoopBackOff" ->
             Spec.nonEmpty (Parse.Terminated final) = None ->
             Spec.statusByPrecedence item = "CrashLoopBackOff").
  { intros item earlier final E Hw Ht. unfold Spec.statusByPrecedence.
    rewrite E, (@lastReason_final earlier final "CrashLoopBackOff"); [reflexivity|].
    unfold Spec.containerReason. rewrite Ht, Hw. reflexivity. }
  split; [|split].
  - intros stdout pods. unfold Parse.parsePods.
    destruct (Parse.Unmarshal env (Parse.podListDecoder env) [] stdout) as [items|msg];
      [|discriminate].
    intro H. injection H as <-. exists items. split; [reflexivity|].
    pose proof (podsFrom_statuses env items 0 []) as S. cbn [map app] in S.
    split; [exact S|].
    intros i item earlier final Hi E _ Hw Ht.
    rewrite <- nth_error_map, S, nth_error_map, Hi. cbn [option_map].
    rewrite (B item earlier final E Hw Ht). reflexivity.
  - intros items W. eexists. split; [apply (A items W)|].
    rewrite podsFrom_names, podsFrom_statuses, !map_map. split.
    + reflexivity.
    + apply map_ext. intro item. apply written_status.
  - intros item earlier final W E _ Hw Ht.
    rewrite (A [item]) by (constructor; [exact W|constructor]).
    eexists. split; [reflexivity|]. split; [reflexivity|].
    rewrite podOf_status, written_status. apply (B item earlier final E Hw Ht).
Qed.

Lemma parsePods_status_precedence_witness :
  exists pod,
    Parse.parsePods (printing "")
      (podListText
         [Parse.mkPodItem "web-0" 0 [] "Running" "" ""
            [Parse.mkContainerStatus true 0 None None;
             Parse.mkContainerStatus false 0 (Some "CrashLoopBackOff") None]])
    = Ok [pod]
    /\ Pod_Status pod = "CrashLoopBackOff".
Proof.
  destruct (proj2 (proj2 (parsePods_status_precedence (printing "")))
              (Parse.mkPodItem "web-0" 0 [] "Running" "" ""
                 [Parse.mkContainerStatus true 0 None None;
                  Parse.mkContainerStatus false 0 (Some "CrashLoopBackOff") None])
              [Parse.mkContainerStatus true 0 None None]
              (Parse.mkContainerStatus false 0 (Some "CrashLoopBackOff") None)
              eq_refl eq_refl eq_refl eq_refl eq_refl) as (pod & P & _ & S).
  exists pod. split; [exact P | exact S].
Defined.
